(** * Boken: a viewer for exported chat-assistant conversation archives

    Shallow embedding of [src/App.tsx] and [src/components/DeepSeekPanel.tsx]
    and the properties of their conversation-tree walks, list filter,
    prompt parser, timestamp formatter and delete/reload cycle.

    Conventions of the embedding.
    - A JS string is a [string]. [String.prototype.toLowerCase] and the
      [/i] flag of a regular expression are the folding of [A-Z] onto
      [a-z], which is what they do to an ASCII text; [ascii_only] says
      that a text is one, and the statement about the search box, where
      the folding of other letters would matter, has it as a hypothesis
      on the titles and on the search term. A text beyond ASCII stands
      for its UTF-8 bytes, none of which is an ASCII character; the three
      assistant names and the phrase of the prompt are ASCII.
    - A JSON object whose property may be absent has that property as an
      [option]; [null] and [undefined] are both [None].
    - [mapping] is a [gmap] from node ids to nodes (own properties only).
    - A [while] loop is a [Fixpoint] on a fuel argument and answers
      [OutOfFuel] when the fuel does not suffice; reading a property of
      [undefined] answers [Throw TypeError].
    - A timestamp is a whole number, a [Z]; below 2^53 in magnitude the
      doubles of the source compute the same products and, once the
      [Date] has cut the fraction off, the same quotients. Local time is a
      parameter, the offset from UTC at each time value. *)

From Stdlib Require Import ZArith Ascii String.
From stdpp Require Import base gmap strings list fin_maps.

Open Scope string_scope.

(** ** JS strings *)

Module JsString.

Definition lower_ascii (c : ascii) : ascii :=
  let n := N_of_ascii c in
  if ((65 <=? n) && (n <=? 90))%N then ascii_of_N (n + 32) else c.

(** [s.toLowerCase()] *)
Fixpoint toLowerCase (s : string) : string :=
  match s with
  | EmptyString => EmptyString
  | String c s' => String (lower_ascii c) (toLowerCase s')
  end.

(** [s.includes(sub)] *)
Fixpoint includes (s sub : string) : bool :=
  String.prefix sub s ||
  match s with
  | EmptyString => false
  | String _ s' => includes s' sub
  end.

(** [parts.join(sep)] *)
Definition join (sep : string) (parts : list string) : string :=
  String.concat sep parts.

(** Truthiness of a [string | null] value: [null], [undefined] and the
    empty string are falsy. *)
Definition truthy (v : option string) : option string :=
  match v with
  | Some s => if String.eqb s "" then None else Some s
  | None => None
  end.

End JsString.
Import JsString.

(** ** Outcome of running a piece of JS *)

Inductive js_error := TypeError.

Inductive outcome (A : Type) : Type :=
| Ret (a : A)
| Throw (e : js_error)
| OutOfFuel.
Arguments Ret {A} a.
Arguments Throw {A} e.
Arguments OutOfFuel {A}.

#[global] Instance outcome_bind : MBind outcome := λ A B k x,
  match x with
  | Ret a => k a
  | Throw e => Throw e
  | OutOfFuel => OutOfFuel
  end.

(** Reading a property off [o], which may be [undefined]: a TypeError
    when it is. *)
Definition deref {A} (o : option A) : outcome A :=
  match o with
  | Some a => Ret a
  | None => Throw TypeError
  end.

Definition terminates {A} (x : outcome A) : Prop := x ≠ OutOfFuel.

(** ** Data model ([App.tsx], lines 8-32) *)

Record Author := { role : string }.

Record Content := {
  content_type : string;
  parts : option (list string)
}.

Record Message := {
  msg_id : string;
  author : option Author;
  content : option Content
}.

Record ConversationNode := {
  node_id : string;
  message : option Message;
  parent : option string;
  children : list string
}.

Record Conversation := {
  conv_id : string;
  title : string;
  create_time : Z;
  mapping : gmap string ConversationNode;
  current_node : string
}.

(** ** Thread reconstruction ([handleSelectConversation]) *)

(** The condition of the [if] in the loop body: the node, its message, its
    content and its parts are all truthy and [parts.length > 0]. When it
    holds, the answer is the message to [unshift]. *)
Definition shown_message (currentNode : option ConversationNode) : option Message :=
  match currentNode with
  | Some n =>
      match message n with
      | Some m =>
          match content m with
          | Some c =>
              match parts c with
              | Some ps => if (0 <? length ps)%nat then Some m else None
              | None => None
              end
          | None => None
          end
      | None => None
      end
  | None => None
  end.

(** [currentNode?.parent] *)
Definition opt_parent (currentNode : option ConversationNode) : option string :=
  match currentNode with
  | Some n => parent n
  | None => None
  end.

Fixpoint history_loop (fuel : nat) (mapping : gmap string ConversationNode)
    (currentNodeId : option string) (history : list Message)
  : outcome (list Message) :=
  match fuel with
  | O => OutOfFuel
  | S fuel' =>
      match truthy currentNodeId with
      | None => Ret history
      | Some id =>
          let currentNode := mapping !! id in
          let history' :=
            match shown_message currentNode with
            | Some m => m :: history      (* history.unshift(message) *)
            | None => history
            end in
          history_loop fuel' mapping (opt_parent currentNode) history'
      end
  end.

(** The value handed to [setChatHistory]. *)
Definition handleSelectConversation (fuel : nat) (conversation : Conversation)
  : outcome (list Message) :=
  history_loop fuel (mapping conversation) (Some (current_node conversation)) [].

(** ** Rendering of the chat history (the JSX of [App])

    Each message of [chatHistory] is rendered by reading
    [message.author.role] and [message.content.parts.join(' ')], with no
    guard. *)
Definition render_message (message : Message) : outcome (string * string) :=
  deref (author message) ≫= λ a : Author,
  deref (content message) ≫= λ c : Content,
  deref (parts c) ≫= λ ps : list string,
  Ret (role a, join " " ps).

Fixpoint render_history (chatHistory : list Message) : outcome (list (string * string)) :=
  match chatHistory with
  | [] => Ret []
  | message :: rest =>
      render_message message ≫= λ bubble : string * string,
      render_history rest ≫= λ bubbles : list (string * string),
      Ret (bubble :: bubbles)
  end.

(** ** Assistant classification ([getAssistantFromConversation]) *)

(** The three [includes] tests, in the order of the source; [text] is
    already lower-cased. *)
Definition known_name (text : string) : option string :=
  if includes text "lester" then Some "Lester"
  else if includes text "osho" then Some "Osho"
  else if includes text "neville" then Some "Neville"
  else None.

Definition MAX_MESSAGES_TO_CHECK : nat := 5.

(** What one run of a loop body does to the loop. *)
Inductive loop_step (St R : Type) : Type :=
| Continue (s : St)
| Break
| Return (r : R).
Arguments Continue {St R} s.
Arguments Break {St R}.
Arguments Return {St R} r.

(** The negation of the guard
    [!message || !message.author || !message.content ||
     !Array.isArray(message.content.parts)]:
    the author and the parts the rest of the body reads. *)
Definition inspectable (message : option Message) : option (Author * list string) :=
  match message with
  | Some m =>
      match author m, content m with
      | Some a, Some c =>
          match parts c with
          | Some ps => Some (a, ps)
          | None => None
          end
      | _, _ => None
      end
  | None => None
  end.

(** The body of the [while], run at a truthy [currentNodeId]; the loop
    state is [(currentNodeId, checkedMessages)]. *)
Definition classify_body (mapping : gmap string ConversationNode)
    (currentNodeId : string) (checkedMessages : nat)
  : loop_step (option string * nat) string :=
  match mapping !! currentNodeId with
  | None => Break
  | Some node =>
      match inspectable (message node) with
      | None => Continue (parent node, checkedMessages)
      | Some (a, ps) =>
          if String.eqb (role a) "assistant" then
            let content := toLowerCase (join " " ps) in
            match known_name content with
            | Some name => Return name
            | None => Continue (parent node, S checkedMessages)
            end
          else Continue (parent node, checkedMessages)
      end
  end.

Fixpoint classify_loop (fuel : nat) (mapping : gmap string ConversationNode)
    (currentNodeId : option string) (checkedMessages : nat)
  : outcome (option string) :=
  match fuel with
  | O => OutOfFuel
  | S fuel' =>
      match truthy currentNodeId with
      | None => Ret None
      | Some id =>
          if (checkedMessages <? MAX_MESSAGES_TO_CHECK)%nat then
            match classify_body mapping id checkedMessages with
            | Continue (next, checked) => classify_loop fuel' mapping next checked
            | Break => Ret None
            | Return name => Ret (Some name)
            end
          else Ret None
      end
  end.

Definition getAssistantFromConversation (fuel : nat) (conversation : Conversation)
  : outcome (option string) :=
  match known_name (toLowerCase (title conversation)) with
  | Some name => Ret (Some name)
  | None =>
      classify_loop fuel (mapping conversation)
        (Some (current_node conversation)) 0
  end.

(** ** The filtered view (the filter [useEffect] of [App]) *)

(** [Object.entries(gpts).filter(([, checked]) => checked).map(([name]) => name)];
    [gpts] is the list of its entries, in insertion order. *)
Definition selectedGpts (gpts : list (string * bool)) : list string :=
  List.map fst (List.filter snd gpts).

(** [Array.prototype.filter] with a callback that may fail to return. *)
Fixpoint filterM {A} (f : A → outcome bool) (l : list A) : outcome (list A) :=
  match l with
  | [] => Ret []
  | x :: l' =>
      f x ≫= λ b : bool,
      filterM f l' ≫= λ r : list A,
      Ret (if b then x :: r else r)
  end.

(** [c => { const assistant = getAssistantFromConversation(c);
            return assistant && selectedGpts.includes(assistant); }] *)
Definition gpt_callback (fuel : nat) (selected : list string) (c : Conversation)
  : outcome bool :=
  getAssistantFromConversation fuel c ≫= λ assistant : option string,
  Ret (match assistant with
       | Some a => bool_decide (a ∈ selected)
       | None => false
       end).

Definition title_matches (searchTerm : string) (c : Conversation) : bool :=
  includes (toLowerCase (title c)) (toLowerCase searchTerm).

(** The value handed to [setFilteredConversations]. *)
Definition filter_effect (fuel : nat) (conversations : list Conversation)
    (searchTerm : string) (gpts : list (string * bool))
  : outcome (list Conversation) :=
  let result :=
    if String.eqb searchTerm "" then conversations
    else List.filter (title_matches searchTerm) conversations in
  let selected := selectedGpts gpts in
  if (0 <? length selected)%nat
  then filterM (gpt_callback fuel selected) result
  else Ret result.

(** ** The summarizer panel ([handlePromptSubmit] of [DeepSeekPanel]) *)

Module Regex.

(** Two characters are equal under the [/i] flag. *)
Definition eq_ci (a b : ascii) : bool :=
  Ascii.eqb (lower_ascii a) (lower_ascii b).

(** Match the literal [lit], ignoring case, at the start of [s]: the
    text matched and the rest of [s]. *)
Fixpoint lit_ci (lit s : string) : option (string * string) :=
  match lit with
  | EmptyString => Some (EmptyString, s)
  | String a lit' =>
      match s with
      | EmptyString => None
      | String b s' =>
          if eq_ci a b then
            match lit_ci lit' s' with
            | Some (m, r) => Some (String b m, r)
            | None => None
            end
          else None
      end
  end.

(** [.] matches everything but a line terminator; of the four that JS
    knows, line feed and carriage return are ASCII. *)
Definition line_terminator (c : ascii) : bool :=
  Ascii.eqb c "010"%char || Ascii.eqb c "013"%char.

(** The greedy dot-star group: the longest run without a line
    terminator. *)
Fixpoint dot_star (s : string) : string :=
  match s with
  | EmptyString => EmptyString
  | String c s' =>
      if line_terminator c then EmptyString else String c (dot_star s')
  end.

(** The alternation [(a1|a2|...)] followed by the literal [after]: the
    alternatives are tried in order, and one whose continuation fails
    is given up for the next. The answer is the text the group
    captured and what follows [after]. *)
Fixpoint alt_then (alts : list string) (after s : string)
  : option (string * string) :=
  match alts with
  | [] => None
  | a :: alts' =>
      match lit_ci a s with
      | Some (g, r) =>
          match lit_ci after r with
          | Some (_, r') => Some (g, r')
          | None => alt_then alts' after s
          end
      | None => alt_then alts' after s
      end
  end.

(** The pattern of [handlePromptSubmit], namely the literal
    [Sammanfatta alla ], the group [(Lester|Osho|Neville)], the literal
    [-konversationer om ] and a greedy dot-star group, under the [i]
    flag, tried at the start of [s]; the answer is the two captures. *)
Definition match_here (s : string) : option (string * string) :=
  match lit_ci "Sammanfatta alla " s with
  | Some (_, s1) =>
      match alt_then ["Lester"; "Osho"; "Neville"] "-konversationer om " s1 with
      | Some (g, s2) => Some (g, dot_star s2)
      | None => None
      end
  | None => None
  end.

(** [prompt.match(re)] for a pattern without the [g] flag: the match at
    the leftmost index that has one. *)
Fixpoint prompt_match (s : string) : option (string * string) :=
  match match_here s with
  | Some r => Some r
  | None =>
      match s with
      | EmptyString => None
      | String _ s' => prompt_match s'
      end
  end.

End Regex.

(** The separator appended after each collected text: two line feeds. *)
Definition blank_line : string := String "010"%char (String "010"%char EmptyString).

(** The body of the [while] inside the [forEach] callback, run at a truthy
    [currentId]: the next [currentId] and the grown [contentToSummarize].
    [node.message.content.parts.join('')] is read with no guard on
    [content] or on [parts]. *)
Definition collect_body (mapping : gmap string ConversationNode)
    (currentId topic contentToSummarize : string)
  : outcome (option string * string) :=
  let node := mapping !! currentId in
  match node with
  | Some n =>
      match message n with
      | Some m =>
          deref (content m) ≫= λ c : Content,
          deref (parts c) ≫= λ ps : list string,
          let text := join "" ps in
          if includes (toLowerCase text) (toLowerCase topic)
          then Ret (opt_parent node, contentToSummarize +:+ text +:+ blank_line)
          else Ret (opt_parent node, contentToSummarize)
      | None => Ret (opt_parent node, contentToSummarize)
      end
  | None => Ret (opt_parent node, contentToSummarize)
  end.

Fixpoint collect_loop (fuel : nat) (mapping : gmap string ConversationNode)
    (currentId : option string) (topic contentToSummarize : string)
  : outcome string :=
  match fuel with
  | O => OutOfFuel
  | S fuel' =>
      match truthy currentId with
      | None => Ret contentToSummarize
      | Some id =>
          collect_body mapping id topic contentToSummarize ≫=
            λ st : option string * string,
              collect_loop fuel' mapping st.1 topic st.2
      end
  end.

(** [relevantConversations.forEach(convo => ...)] *)
Fixpoint collect_all (fuel : nat) (convos : list Conversation)
    (topic contentToSummarize : string) : outcome string :=
  match convos with
  | [] => Ret contentToSummarize
  | convo :: rest =>
      collect_loop fuel (mapping convo) (Some (current_node convo))
        topic contentToSummarize ≫= λ acc : string,
      collect_all fuel rest topic acc
  end.

(** What the panel does with a prompt, up to the remote call. *)
Inductive panel_response : Type :=
| UsageHint
| NoContentFound (topic gptName : string)
| MissingApiKey
| RemoteCall (topic contentToSummarize : string).

Definition handlePromptSubmit (fuel : nat) (conversations : list Conversation)
    (apiKey : option string) (prompt : string) : outcome panel_response :=
  match Regex.prompt_match prompt with
  | None => Ret UsageHint
  | Some (gptName, topic) =>
      let relevantConversations :=
        List.filter (λ c, includes (toLowerCase (title c)) (toLowerCase gptName))
          conversations in
      collect_all fuel relevantConversations topic "" ≫= λ content : string,
      if String.eqb content "" then Ret (NoContentFound topic gptName)
      else
        match truthy apiKey with
        | None => Ret MissingApiKey
        | Some _ => Ret (RemoteCall topic content)
        end
  end.

(** ** Application state, the persistent stores and the delete cycle *)

(** The two [localforage] instances: the default one, which holds the key
    [cleanedConversationIds], and [conversationsStore]. *)
Record Stores := {
  cleanedIdsItem : option (list string);
  conversationsStore : gmap string Conversation
}.

Inductive status : Type :=
| NoStatus
| Removed (title : string)
| RemoveFailed.

Record AppState := {
  conversations : list Conversation;
  filteredConversations : list Conversation;
  selectedConversation : option Conversation;
  chatHistory : list Message;
  searchTerm : string;
  cleanedConversationIds : list string;
  syncStatus : status;
  deleteConfirmation : option (string * string)
}.

(** The [useState] initial values. *)
Definition initial_state : AppState := {|
  conversations := [];
  filteredConversations := [];
  selectedConversation := None;
  chatHistory := [];
  searchTerm := "";
  cleanedConversationIds := [];
  syncStatus := NoStatus;
  deleteConfirmation := None
|}.

(** [fetchConversations], when the fetch of [/conversations.json]
    answers [data]. *)
Definition fetchConversations (data : list Conversation) (st : AppState) : AppState := {|
  conversations := data;
  filteredConversations := data;
  selectedConversation := selectedConversation st;
  chatHistory := chatHistory st;
  searchTerm := searchTerm st;
  cleanedConversationIds := cleanedConversationIds st;
  syncStatus := syncStatus st;
  deleteConfirmation := deleteConfirmation st
|}.

Definition loadCleanedIds (db : Stores) (st : AppState) : AppState :=
  match cleanedIdsItem db with
  | Some ids => {|
      conversations := conversations st;
      filteredConversations := filteredConversations st;
      selectedConversation := selectedConversation st;
      chatHistory := chatHistory st;
      searchTerm := searchTerm st;
      cleanedConversationIds := ids;
      syncStatus := syncStatus st;
      deleteConfirmation := deleteConfirmation st
    |}
  | None => st
  end.

(** A fresh session: the mount effects run on the initial state. *)
Definition load (data : list Conversation) (db : Stores) : AppState :=
  loadCleanedIds db (fetchConversations data initial_state).

(** [handleDeleteConversation]: the confirmation dialog is opened. *)
Definition handleDeleteConversation (id title : string) (st : AppState) : AppState := {|
  conversations := conversations st;
  filteredConversations := filteredConversations st;
  selectedConversation := selectedConversation st;
  chatHistory := chatHistory st;
  searchTerm := searchTerm st;
  cleanedConversationIds := cleanedConversationIds st;
  syncStatus := syncStatus st;
  deleteConfirmation := Some (id, title)
|}.

(** [confirmDelete]; [removeItem_ok] says whether the store's
    [removeItem] resolved (the [try]) or rejected (the [catch]). *)
Definition confirmDelete (removeItem_ok : bool) (st : AppState) (db : Stores)
  : AppState * Stores :=
  match deleteConfirmation st with
  | None => (st, db)
  | Some (id, title) =>
      if removeItem_ok then
        let newConversations :=
          List.filter (λ c, negb (String.eqb (conv_id c) id)) (conversations st) in
        let was_selected :=
          match selectedConversation st with
          | Some c => String.eqb (conv_id c) id
          | None => false
          end in
        ({| conversations := newConversations;
            filteredConversations :=
              List.filter (title_matches (searchTerm st)) newConversations;
            selectedConversation :=
              if was_selected then None else selectedConversation st;
            chatHistory := if was_selected then [] else chatHistory st;
            searchTerm := searchTerm st;
            cleanedConversationIds := cleanedConversationIds st;
            syncStatus := Removed title;
            deleteConfirmation := None |},
         {| cleanedIdsItem := cleanedIdsItem db;
            conversationsStore := delete id (conversationsStore db) |})
      else
        ({| conversations := conversations st;
            filteredConversations := filteredConversations st;
            selectedConversation := selectedConversation st;
            chatHistory := chatHistory st;
            searchTerm := searchTerm st;
            cleanedConversationIds := cleanedConversationIds st;
            syncStatus := RemoveFailed;
            deleteConfirmation := None |},
         db)
  end.

(** [saveConversation]: the id joins the cleaned list, in the state and
    in the default store. *)
Definition saveConversation (id : string) (st : AppState) (db : Stores)
  : AppState * Stores :=
  let updatedIds := (cleanedConversationIds st ++ [id])%list in
  ({| conversations := conversations st;
      filteredConversations := filteredConversations st;
      selectedConversation := selectedConversation st;
      chatHistory := chatHistory st;
      searchTerm := searchTerm st;
      cleanedConversationIds := updatedIds;
      syncStatus := syncStatus st;
      deleteConfirmation := deleteConfirmation st |},
   {| cleanedIdsItem := Some updatedIds;
      conversationsStore := conversationsStore db |}).

(** [clearDatabase]: the default store is emptied, [conversationsStore]
    is another instance and stays. *)
Definition clearDatabase (st : AppState) (db : Stores) : AppState * Stores :=
  ({| conversations := conversations st;
      filteredConversations := filteredConversations st;
      selectedConversation := selectedConversation st;
      chatHistory := chatHistory st;
      searchTerm := searchTerm st;
      cleanedConversationIds := [];
      syncStatus := syncStatus st;
      deleteConfirmation := deleteConfirmation st |},
   {| cleanedIdsItem := None;
      conversationsStore := conversationsStore db |}).

(** Deleting a list of ids one after the other, each confirmed and each
    [removeItem] resolving. *)
Fixpoint delete_all (ids : list string) (st : AppState) (db : Stores)
  : AppState * Stores :=
  match ids with
  | [] => (st, db)
  | id :: ids' =>
      let '(st', db') := confirmDelete true (handleDeleteConversation id "" st) db in
      delete_all ids' st' db'
  end.

(** ** Timestamps ([formatDate]) *)

Module JsDate.

Open Scope Z_scope.

Definition msPerDay : Z := 86400000.

(** [Day(t)], [DayFromYear(y)] and [TimeFromYear(y)] of ECMA-262. *)
Definition Day (t : Z) : Z := t / msPerDay.

Definition DayFromYear (y : Z) : Z :=
  365 * (y - 1970) + (y - 1969) / 4 - (y - 1901) / 100 + (y - 1601) / 400.

Definition TimeFromYear (y : Z) : Z := msPerDay * DayFromYear y.

(** Count years up from [y] while the next one starts on or before day [d]. *)
Fixpoint year_upto (fuel : nat) (y d : Z) : Z :=
  match fuel with
  | O => y
  | S fuel' =>
      if DayFromYear (y + 1) <=? d then year_upto fuel' (y + 1) d else y
  end.

(** [YearFromTime(t)]: the largest [y] with [TimeFromYear(y) <= t],
    found from a year at or before it. *)
Definition YearFromTime (t : Z) : Z :=
  let d := Day t in
  let lo := if 0 <=? d then 1970 + d / 366 else 1970 + d / 365 in
  let hi := if 0 <=? d then 1971 + d / 365 else 1971 + d / 366 in
  year_upto (Z.to_nat (hi - lo)) lo d.

(** [TimeClip]: a time value beyond 8.64e15 ms is NaN, here [None]. *)
Definition TimeClip (v : Z) : option Z :=
  if 8640000000000000 <? Z.abs v then None else Some v.

(** A [Date] object is its time value. *)
Definition Date : Type := option Z.

Definition new_Date (v : Z) : Date := TimeClip v.

Section Local.
(** The offset of local time from UTC at a time value, in ms. *)
Variable LocalTZA : Z → Z.

Definition LocalTime (t : Z) : Z := t + LocalTZA t.

(** [date.getFullYear()]; [None] is NaN. *)
Definition getFullYear (date : Date) : option Z :=
  match date with
  | Some t => Some (YearFromTime (LocalTime t))
  | None => None
  end.
End Local.

(** [x < n] and [x > n] for a number that may be NaN: both false then. *)
Definition num_lt (x : option Z) (n : Z) : bool :=
  match x with Some v => v <? n | None => false end.
Definition num_gt (x : option Z) (n : Z) : bool :=
  match x with Some v => n <? v | None => false end.

End JsDate.

(** What [formatDate] answers: the fixed text ['Ogiltigt datum'], or the
    rendering of a date by [toLocaleDateString('sv-SE', ...)]. *)
Inductive rendering : Type :=
| Ogiltigt_datum
| LocaleDateString (date : JsDate.Date).

(** The unit normalisation at the head of [formatDate]. The quotient by
    1000 loses its fraction when the [Date] is built from it, hence the
    truncating [Z.quot]. *)
Definition timestampInMs (timestamp : Z) : Z :=
  if (timestamp <? 10000000000)%Z then (timestamp * 1000)%Z
  else if (1000000000000 <? timestamp)%Z then Z.quot timestamp 1000
  else timestamp.

Definition formatDate (LocalTZA : Z → Z) (timestamp : Z) : rendering :=
  let date := JsDate.new_Date (timestampInMs timestamp) in
  if JsDate.num_lt (JsDate.getFullYear LocalTZA date) 2020
     || JsDate.num_gt (JsDate.getFullYear LocalTZA date) 2025
  then Ogiltigt_datum
  else LocaleDateString date.

(** ** Vocabulary of the specification *)

(** The nodes met when following [parent] from an id, tip first: the
    chain ends at a falsy id and at an id that [mapping] lacks. *)
Inductive parent_chain (m : gmap string ConversationNode)
  : option string → list ConversationNode → Prop :=
| chain_stop cur :
    truthy cur = None → parent_chain m cur []
| chain_dangling cur id :
    truthy cur = Some id → m !! id = None → parent_chain m cur []
| chain_node cur id n l :
    truthy cur = Some id → m !! id = Some n →
    parent_chain m (parent n) l → parent_chain m cur (n :: l).

(** A well-formed message has an author, a content and at least one
    content part. *)
Definition well_formed_message (m : Message) : bool :=
  match author m, content m with
  | Some _, Some c =>
      match parts c with
      | Some (_ :: _) => true
      | _ => false
      end
  | _, _ => false
  end.

Definition well_formed (n : ConversationNode) : bool :=
  match message n with
  | Some m => well_formed_message m
  | None => false
  end.

(** One parent link: [a] is truthy, in [mapping], and its node names [b]
    as parent. *)
Definition parent_link (m : gmap string ConversationNode) (a b : string) : Prop :=
  truthy (Some a) = Some a ∧ ∃ n, m !! a = Some n ∧ parent n = Some b.

(** No id that the links reach from [start] lies on a cycle of links. *)
Definition acyclic_from (m : gmap string ConversationNode) (start : string) : Prop :=
  ∀ x, rtc (parent_link m) start x → ¬ tc (parent_link m) x x.

(** The messages the loop keeps, out of the nodes of a chain. *)
Definition shown (l : list ConversationNode) : list Message :=
  omap (λ n, shown_message (Some n)) l.


(** The names the prompt may carry, and the fixed phrase for a name. *)
Definition known_names : list string := ["Lester"; "Osho"; "Neville"].


(** Two texts are the same up to case. *)
Definition same_ci (a b : string) : Prop := toLowerCase a = toLowerCase b.





(** Successive ids of a walk: each id of the list has a parent link to
    the next one, the last to some id. *)
Inductive link_run (m : gmap string ConversationNode)
  : string → list string → Prop :=
| run_nil a : link_run m a []
| run_cons a b l :
    parent_link m a b → link_run m b l → link_run m a (a :: l).

(** The walk from [cur] follows [n] links. *)
Definition follows (m : gmap string ConversationNode)
    (cur : option string) (n : nat) : Prop :=
  ∃ a l, truthy cur = Some a ∧ link_run m a l ∧ length l = n.

(** The conversation has no cycle ahead of its [current_node], and the
    fuel is two more than its [mapping] has nodes, or more. *)
Definition walkable (fuel : nat) (c : Conversation) : Prop :=
  acyclic_from (mapping c) (current_node c) ∧ (size (mapping c) + 2 ≤ fuel)%nat.

(** [y] is the calendar year of the time value [t]: [t] lies between the
    start of [y] and the start of the next year. *)
Definition calendar_year (t y : Z) : Prop :=
  (JsDate.TimeFromYear y ≤ t < JsDate.TimeFromYear (y + 1))%Z.

(** The texts that the loop body of the classifier computes along a
    chain: for a node that passes its guard and whose author role is
    [assistant], the lower-cased join of the parts. *)
Definition assistant_text (n : ConversationNode) : option string :=
  match inspectable (message n) with
  | Some (a, ps) =>
      if String.eqb (role a) "assistant"
      then Some (toLowerCase (join " " ps))
      else None
  | None => None
  end.

Definition assistant_texts (l : list ConversationNode) : list string :=
  omap assistant_text l.

(** What the three [includes] tests find in the first text in which
    they find something. *)
Fixpoint first_known (texts : list string) : option string :=
  match texts with
  | [] => None
  | t :: texts' =>
      match known_name t with
      | Some name => Some name
      | None => first_known texts'
      end
  end.

(** The content parts of a node's message, when it has them. *)
Definition node_parts (n : ConversationNode) : option (list string) :=
  match message n with
  | Some m =>
      match content m with
      | Some c => parts c
      | None => None
      end
  | None => None
  end.

(** Two characters are the same letter: they are equal, or one is an
    upper-case letter of [A-Z] and the other its lower-case form, 32
    further on. *)
Definition same_letter (a b : ascii) : bool :=
  let x := N_of_ascii a in
  let y := N_of_ascii b in
  ((x =? y)
   || ((65 <=? x) && (x <=? 90) && (y =? x + 32))
   || ((65 <=? y) && (y <=? 90) && (x =? y + 32)))%N.

(** [t] stands at the start of [s], letter by letter whatever the case. *)
Fixpoint begins_ci (t s : string) : bool :=
  match t, s with
  | EmptyString, _ => true
  | String _ _, EmptyString => false
  | String b t', String a s' => same_letter a b && begins_ci t' s'
  end.

(** [t] occurs somewhere in [s], whatever the case. *)
Fixpoint occurs_ci (t s : string) : bool :=
  begins_ci t s ||
  match s with
  | EmptyString => false
  | String _ s' => occurs_ci t s'
  end.


(** The known name that a text mentions: the first of [known_names] that
    occurs in it, whatever the case. *)
Definition mentioned (text : string) : option string :=
  List.find (λ name, occurs_ci name text) known_names.

(** The node carries a message whose author has the role [assistant]. *)
Definition assistant_authored (n : ConversationNode) : bool :=
  match message n with
  | Some m =>
      match author m with
      | Some a => String.eqb (role a) "assistant"
      | None => false
      end
  | None => false
  end.

(** What an assistant-authored message says, when it has content parts:
    the parts joined by a blank. *)
Definition inspected_text (n : ConversationNode) : option string :=
  if assistant_authored n then join " " <$> node_parts n else None.

Definition inspected_texts (l : list ConversationNode) : list string :=
  omap inspected_text l.

(** The name mentioned by the first text that mentions one. *)
Fixpoint first_mention (texts : list string) : option string :=
  match texts with
  | [] => None
  | t :: texts' =>
      match mentioned t with
      | Some name => Some name
      | None => first_mention texts'
      end
  end.

(** The name that the message of a node mentions, if it has content parts
    and mentions one. *)
Definition node_mention (n : ConversationNode) : option string :=
  match node_parts n with
  | Some ps => mentioned (join " " ps)
  | None => None
  end.







(** ** Sample data *)

Module Sample.

Definition text_message (i r : string) (ps : list string) : Message := {|
  msg_id := i;
  author := Some {| role := r |};
  content := Some {| content_type := "text"; parts := Some ps |}
|}.

Definition node (i : string) (m : option Message) (p : option string)
  : ConversationNode :=
  {| node_id := i; message := m; parent := p; children := [] |}.

Definition question := text_message "m1" "user" ["What is stillness?"].
Definition answer := text_message "m2" "assistant" ["It is what remains."].

Definition root := node "n1" (Some question) None.
Definition tip := node "n2" (Some answer) (Some "n1").

(** Two well-formed nodes, [n2] the tip and [n1] the root. *)
Definition talk : Conversation := {|
  conv_id := "c1";
  title := "Morning talk";
  create_time := 1700000000;
  mapping := <["n1" := root]> (<["n2" := tip]> ∅);
  current_node := "n2"
|}.

(** A message with content parts and no author, alone in its
    conversation. *)
Definition unsigned_message : Message := {|
  msg_id := "m0";
  author := None;
  content := Some {| content_type := "text"; parts := Some ["hello"] |}
|}.

Definition unsigned_talk : Conversation := {|
  conv_id := "c2";
  title := "Untitled";
  create_time := 1700000000;
  mapping := <["n0" := node "n0" (Some unsigned_message) None]> ∅;
  current_node := "n0"
|}.

(** A tip whose parent id is not in [mapping]. *)
Definition dangling_talk : Conversation := {|
  conv_id := "c3";
  title := "Untitled";
  create_time := 1700000000;
  mapping := <["n2" := node "n2" (Some question) (Some "ghost")]> ∅;
  current_node := "n2"
|}.

(** A node whose message has a content of type [code], without parts,
    above a root that speaks of Neville. *)
Definition code_message : Message := {|
  msg_id := "m3";
  author := Some {| role := "assistant" |};
  content := Some {| content_type := "code"; parts := None |}
|}.

Definition neville_message :=
  text_message "m4" "assistant" ["As Neville put it, assume the wish fulfilled."].

Definition code_talk : Conversation := {|
  conv_id := "c4";
  title := "Lester on release";
  create_time := 1700000000;
  mapping := <["n1" := node "n1" (Some neville_message) None]>
             (<["n2" := node "n2" (Some code_message) (Some "n1")]> ∅);
  current_node := "n2"
|}.

(** The tip speaks of nothing known, a user turn names Osho, and the
    second assistant message names Neville. *)
Definition second_talk : Conversation := {|
  conv_id := "c5";
  title := "Evening talk";
  create_time := 1700000000;
  mapping := list_to_map [
    ("a1", node "a1" (Some answer) (Some "u1"));
    ("u1", node "u1" (Some (text_message "mu" "user" ["Is this Osho?"])) (Some "a2"));
    ("a2", node "a2" (Some neville_message) None)];
  current_node := "a1"
|}.

Definition bland (i : string) (p : option string) : ConversationNode :=
  node i (Some (text_message i "assistant" ["Go on."])) p.

(** Five assistant messages that name nobody, then a sixth that names
    Neville. *)
Definition six_deep : Conversation := {|
  conv_id := "c6";
  title := "Night talk";
  create_time := 1700000000;
  mapping := list_to_map [
    ("a1", bland "a1" (Some "a2"));
    ("a2", bland "a2" (Some "a3"));
    ("a3", bland "a3" (Some "a4"));
    ("a4", bland "a4" (Some "a5"));
    ("a5", bland "a5" (Some "a6"));
    ("a6", node "a6" (Some neville_message) None)];
  current_node := "a1"
|}.

Definition archive : list Conversation :=
  [talk; second_talk; six_deep; code_talk; unsigned_talk].

(** Nothing stored yet. *)
Definition fresh_stores : Stores :=
  {| cleanedIdsItem := None; conversationsStore := ∅ |}.

End Sample.

(** ** The rest of [App]: labels, check boxes and the session *)

(** [getAssistantName]: the classified name, or ['Assistant']. *)
Definition getAssistantName (fuel : nat) (conversation : Conversation)
  : outcome string :=
  getAssistantFromConversation fuel conversation ≫= λ a : option string,
  Ret (match a with
       | Some name => name
       | None => "Assistant"
       end).

(** The name shown over a chat bubble (the JSX of [App]): the assistant
    name for an assistant message of a selected conversation, ['Du'] for a
    user message, the role itself otherwise. *)
Definition bubble_label (fuel : nat) (selectedConversation : option Conversation)
    (message : Message) : outcome string :=
  deref (author message) ≫= λ a : Author,
  match String.eqb (role a) "assistant", selectedConversation with
  | true, Some conversation => getAssistantName fuel conversation
  | _, _ => if String.eqb (role a) "user" then Ret "Du" else Ret (role a)
  end.

(** [{...gpts, [name]: checked}] on the entries of [gpts]: a key that is
    there keeps its place, a new key comes last. *)
Fixpoint set_entry (name : string) (checked : bool)
    (gpts : list (string * bool)) : list (string * bool) :=
  match gpts with
  | [] => [(name, checked)]
  | (k, v) :: rest =>
      if String.eqb k name then (k, checked) :: rest
      else (k, v) :: set_entry name checked rest
  end.

(** [handleGptChange], for the check box [name] set to [checked]. *)
Definition handleGptChange (name : string) (checked : bool)
    (gpts : list (string * bool)) : list (string * bool) :=
  set_entry name checked gpts.

(** The [useState] initial value of [gpts]. *)
Definition initial_gpts : list (string * bool) :=
  [("Lester", true); ("Osho", true); ("Neville", true)].

(** [cancelDelete] *)
Definition cancelDelete (st : AppState) : AppState := {|
  conversations := conversations st;
  filteredConversations := filteredConversations st;
  selectedConversation := selectedConversation st;
  chatHistory := chatHistory st;
  searchTerm := searchTerm st;
  cleanedConversationIds := cleanedConversationIds st;
  syncStatus := syncStatus st;
  deleteConfirmation := None
|}.

(** [setSearchTerm(e.target.value)] *)
Definition setSearchTerm (s : string) (st : AppState) : AppState := {|
  conversations := conversations st;
  filteredConversations := filteredConversations st;
  selectedConversation := selectedConversation st;
  chatHistory := chatHistory st;
  searchTerm := s;
  cleanedConversationIds := cleanedConversationIds st;
  syncStatus := syncStatus st;
  deleteConfirmation := deleteConfirmation st
|}.

(** [setFilteredConversations(result)], the last line of the filter
    effect. *)
Definition setFilteredConversations (result : list Conversation)
    (st : AppState) : AppState := {|
  conversations := conversations st;
  filteredConversations := result;
  selectedConversation := selectedConversation st;
  chatHistory := chatHistory st;
  searchTerm := searchTerm st;
  cleanedConversationIds := cleanedConversationIds st;
  syncStatus := syncStatus st;
  deleteConfirmation := deleteConfirmation st
|}.

(** The two [set...] calls of [handleSelectConversation], once its loop
    has built [history]. *)
Definition select (conversation : Conversation) (history : list Message)
    (st : AppState) : AppState := {|
  conversations := conversations st;
  filteredConversations := filteredConversations st;
  selectedConversation := Some conversation;
  chatHistory := history;
  searchTerm := searchTerm st;
  cleanedConversationIds := cleanedConversationIds st;
  syncStatus := syncStatus st;
  deleteConfirmation := deleteConfirmation st
|}.

(** The whole state of a session: the state of [App] with its check
    boxes, and the stores. *)
Record Session := {
  app : AppState;
  gpts : list (string * bool);
  stores : Stores
}.

Definition session_start (db : Stores) : Session :=
  {| app := initial_state; gpts := initial_gpts; stores := db |}.

(** What can happen in a session whose fetch answers [data]: a promise of
    a mount effect resolves, the filter effect runs, or a handler runs on
    a user's action. A conversation is selected by a click on its row in
    the list of [filteredConversations]. *)
Inductive step (data : list Conversation) : Session → Session → Prop :=
| step_fetched s :
    step data s
      {| app := fetchConversations data (app s); gpts := gpts s;
         stores := stores s |}
| step_cleaned_loaded s :
    step data s
      {| app := loadCleanedIds (stores s) (app s); gpts := gpts s;
         stores := stores s |}
| step_filter_effect s fuel result :
    filter_effect fuel (conversations (app s)) (searchTerm (app s)) (gpts s)
      = Ret result →
    step data s
      {| app := setFilteredConversations result (app s); gpts := gpts s;
         stores := stores s |}
| step_search s term :
    step data s
      {| app := setSearchTerm term (app s); gpts := gpts s;
         stores := stores s |}
| step_gpt s name checked :
    step data s
      {| app := app s; gpts := handleGptChange name checked (gpts s);
         stores := stores s |}
| step_select s fuel c history :
    c ∈ filteredConversations (app s) →
    handleSelectConversation fuel c = Ret history →
    step data s
      {| app := select c history (app s); gpts := gpts s;
         stores := stores s |}
| step_save s id :
    step data s
      {| app := fst (saveConversation id (app s) (stores s)); gpts := gpts s;
         stores := snd (saveConversation id (app s) (stores s)) |}
| step_clear s :
    step data s
      {| app := fst (clearDatabase (app s) (stores s)); gpts := gpts s;
         stores := snd (clearDatabase (app s) (stores s)) |}
| step_ask_delete s id title :
    step data s
      {| app := handleDeleteConversation id title (app s); gpts := gpts s;
         stores := stores s |}
| step_confirm_delete s removeItem_ok :
    step data s
      {| app := fst (confirmDelete removeItem_ok (app s) (stores s));
         gpts := gpts s;
         stores := snd (confirmDelete removeItem_ok (app s) (stores s)) |}
| step_cancel_delete s :
    step data s
      {| app := cancelDelete (app s); gpts := gpts s; stores := stores s |}.

(** What holds of the lists, the selection and the history all along. *)
Definition session_inv (data : list Conversation) (s : Session) : Prop :=
  sublist (filteredConversations (app s)) (conversations (app s)) ∧
  sublist (conversations (app s)) data ∧
  match selectedConversation (app s) with
  | Some c =>
      c ∈ conversations (app s) ∧
      ∃ fuel, handleSelectConversation fuel c = Ret (chatHistory (app s))
  | None => chatHistory (app s) = []
  end.

(** The cleaned ids in memory, when there are any, are the stored ones. *)
Definition cleaned_inv (s : Session) : Prop :=
  cleanedConversationIds (app s) ≠ [] →
  cleanedIdsItem (stores s) = Some (cleanedConversationIds (app s)).




(** Path of [n] parent links. *)
Definition links (m : gmap string ConversationNode) (n : nat) (a b : string) : Prop :=
  nsteps (parent_link m) n a b.



Module More.

Definition fear_question :=
  Sample.text_message "m5" "user" ["How do I let go of FEAR?"].
Definition fear_answer :=
  Sample.text_message "m6" "assistant" ["Welcome the fear"; ", then let it pass."].
Definition fear_aside :=
  Sample.text_message "m7" "assistant" ["Good morning."].


Definition lester_talk : Conversation := {|
  conv_id := "c8";
  title := "LESTER on letting go";
  create_time := 1700000000;
  mapping := list_to_map [
    ("k3", Sample.node "k3" (Some fear_answer) (Some "k2"));
    ("k2", Sample.node "k2" (Some fear_aside) (Some "k1"));
    ("k1", Sample.node "k1" (Some fear_question) None)];
  current_node := "k3"
|}.


(** A node that names itself as parent. *)
Definition loop_node : ConversationNode :=
  Sample.node "n1" (Some Sample.question) (Some "n1").

Definition loop_talk : Conversation := {|
  conv_id := "c7";
  title := "Round and round";
  create_time := 1700000000;
  mapping := <["n1" := loop_node]> ∅;
  current_node := "n1"
|}.

(** Six assistant-authored messages: the tip has a content of type
    [code] and no parts, the next four name nobody, the sixth names
    Neville. *)
Definition six_with_code_chain : list ConversationNode :=
  [Sample.node "b1" (Some Sample.code_message) (Some "b2");
   Sample.bland "b2" (Some "b3");
   Sample.bland "b3" (Some "b4");
   Sample.bland "b4" (Some "b5");
   Sample.bland "b5" (Some "b6");
   Sample.node "b6" (Some Sample.neville_message) None].

Definition six_with_code : Conversation := {|
  conv_id := "c9";
  title := "Late talk";
  create_time := 1700000000;
  mapping := list_to_map [
    ("b1", Sample.node "b1" (Some Sample.code_message) (Some "b2"));
    ("b2", Sample.bland "b2" (Some "b3"));
    ("b3", Sample.bland "b3" (Some "b4"));
    ("b4", Sample.bland "b4" (Some "b5"));
    ("b5", Sample.bland "b5" (Some "b6"));
    ("b6", Sample.node "b6" (Some Sample.neville_message) None)];
  current_node := "b1"
|}.

End More.

(** * Properties *)

#[local] Set Warnings "-clear-no-such-hyp".

(** Builds the parent chain of a sample conversation, node by node. *)
Ltac walk_chain :=
  repeat (eapply chain_node; [reflexivity | reflexivity |]);
  first [ apply chain_stop; reflexivity
        | eapply chain_dangling; reflexivity ].

(** ** Letters and case *)

Lemma lower_ascii_code (a : ascii) :
  N_of_ascii (lower_ascii a)
  = (if (65 <=? N_of_ascii a) && (N_of_ascii a <=? 90)
     then N_of_ascii a + 32 else N_of_ascii a)%N.
Proof.
  unfold lower_ascii. cbv zeta.
  destruct ((65 <=? N_of_ascii a) && (N_of_ascii a <=? 90))%N eqn:H; [|done].
  apply N_ascii_embedding.
  apply andb_true_iff in H as [_ H%N.leb_le]. lia.
Qed.

Lemma same_letter_lower (a b : ascii) :
  same_letter a b = true ↔ lower_ascii a = lower_ascii b.
Proof.
  assert (lower_ascii a = lower_ascii b
          ↔ N_of_ascii (lower_ascii a) = N_of_ascii (lower_ascii b)) as ->.
  { split; [by intros ->|]. intros H.
    rewrite <- (ascii_N_embedding (lower_ascii a)), H.
    apply ascii_N_embedding. }
  rewrite !lower_ascii_code. unfold same_letter. cbv zeta.
  generalize (N_of_ascii a) (N_of_ascii b). intros x y.
  destruct (N.leb_spec 65 x), (N.leb_spec x 90), (N.leb_spec 65 y),
    (N.leb_spec y 90), (N.eqb_spec x y), (N.eqb_spec y (x + 32)),
    (N.eqb_spec x (y + 32)); cbn; split; intros; try done; lia.
Qed.

Lemma begins_ci_prefix (t s : string) :
  String.prefix (toLowerCase t) (toLowerCase s) = begins_ci t s.
Proof.
  revert s. induction t as [|b t IH]; intros s; [by destruct s|].
  destruct s as [|a s]; [done|].
  cbn [toLowerCase String.prefix begins_ci].
  destruct (ascii_dec (lower_ascii b) (lower_ascii a)) as [Heq|Hne].
  - rewrite IH. symmetry in Heq. apply same_letter_lower in Heq.
    by rewrite Heq.
  - destruct (same_letter a b) eqn:H; [|done].
    apply same_letter_lower in H. congruence.
Qed.

Lemma occurs_ci_includes (t s : string) :
  includes (toLowerCase s) (toLowerCase t) = occurs_ci t s.
Proof.
  induction s as [|a s IH].
  - cbn [includes occurs_ci]. by rewrite <- begins_ci_prefix.
  - cbn [includes occurs_ci]. rewrite <- begins_ci_prefix.
    cbn [toLowerCase]. by rewrite <- IH.
Qed.

Lemma known_name_mentioned (t : string) :
  known_name (toLowerCase t) = mentioned t.
Proof.
  unfold known_name, mentioned, known_names. cbn [List.find].
  rewrite <- (occurs_ci_includes "Lester"), <- (occurs_ci_includes "Osho"),
    <- (occurs_ci_includes "Neville").
  reflexivity.
Qed.

(** ** Thread reconstruction *)

Lemma history_loop_chain m cur l :
  parent_chain m cur l →
  ∀ fuel history, (length l + 2 ≤ fuel)%nat →
    history_loop fuel m cur history = Ret (rev (shown l) ++ history)%list.
Proof.
  induction 1 as [cur Hc | cur id Hc Hm | cur id n l Hc Hm _ IH];
    intros fuel history Hfuel.
  - destruct fuel as [|fuel]; [simpl in Hfuel; lia|].
    simpl. by rewrite Hc.
  - destruct fuel as [|[|fuel]]; [simpl in Hfuel; lia..|].
    simpl. by rewrite Hc, Hm.
  - destruct fuel as [|fuel]; [simpl in Hfuel; lia|].
    cbn [history_loop]. rewrite Hc, Hm. cbn [opt_parent].
    rewrite IH by (simpl in Hfuel; lia).
    unfold shown. cbn [omap list_omap].
    destruct (shown_message (Some n)) as [msg|]; [|done].
    cbn [rev]. by rewrite <- app_assoc.
Qed.

Lemma well_formed_shown n :
  well_formed n = true → shown_message (Some n) = message n.
Proof.
  unfold well_formed, well_formed_message, shown_message.
  destruct (message n) as [msg|]; [|done].
  destruct (author msg); [|done].
  destruct (content msg) as [c|]; [|done].
  destruct (parts c) as [[|p ps]|]; done.
Qed.

Lemma shown_well_formed l :
  Forall (λ n, well_formed n = true) l →
  List.map Some (shown l) = List.map message l.
Proof.
  induction 1 as [|n l Hn _ IH]; [done|].
  unfold shown in *. cbn [omap list_omap List.map].
  rewrite (well_formed_shown n Hn).
  destruct (message n) as [msg|] eqn:Hmsg.
  - cbn [List.map]. by rewrite IH.
  - unfold well_formed in Hn. by rewrite Hmsg in Hn.
Qed.

(** C1. When the parent chain from [current_node] has [N] nodes, all of
    them well-formed, the reconstruction returns exactly [N] messages, and
    they are the messages of the chain from the root to the tip. *)
Theorem reconstruct_well_formed_chain (c : Conversation) (l : list ConversationNode) :
  parent_chain (mapping c) (Some (current_node c)) l →
  Forall (λ n, well_formed n = true) l →
  ∀ fuel, (length l + 2 ≤ fuel)%nat →
    ∃ history,
      handleSelectConversation fuel c = Ret history ∧
      length history = length l ∧
      List.map Some history = List.map message (rev l).
Proof.
  intros Hchain Hwf fuel Hfuel.
  exists (rev (shown l)).
  unfold handleSelectConversation.
  rewrite (history_loop_chain _ _ _ Hchain) by done.
  rewrite app_nil_r.
  pose proof (shown_well_formed l Hwf) as Hmap.
  split; [done|]. split.
  - rewrite length_rev.
    rewrite <- (length_map Some (shown l)), Hmap. by rewrite length_map.
  - by rewrite !map_rev, Hmap.
Qed.

Lemma reconstruct_well_formed_chain_witness :
  ∃ history,
    handleSelectConversation 4 Sample.talk = Ret history ∧
    length history = 2 ∧
    List.map Some history = [Some Sample.question; Some Sample.answer].
Proof.
  apply (reconstruct_well_formed_chain Sample.talk [Sample.tip; Sample.root]).
  - walk_chain.
  - repeat constructor.
  - simpl. lia.
Defined.

(** What the loop asks of a message to keep it: a content with at least
    one part. The author is not looked at. *)
Lemma shown_message_iff (n : ConversationNode) (msg : Message) :
  shown_message (Some n) = Some msg
  ↔ message n = Some msg ∧
    ∃ c p ps, content msg = Some c ∧ parts c = Some (p :: ps).
Proof.
  unfold shown_message. split.
  - destruct (message n) as [m'|]; [|done].
    destruct (content m') as [c|] eqn:Hc; [|done].
    destruct (parts c) as [[|p ps]|] eqn:Hps; [done| |done].
    cbn. intros [= <-]. split; [done|]. by exists c, p, ps.
  - intros [-> (c & p & ps & -> & ->)]. done.
Qed.

(** C6. The reconstruction should keep a message only when it has an
    author, a content and at least one content part. Run on a
    conversation whose only message has content parts and no author, the
    loop keeps that message: its [if] never looks at [author]. The
    classifier's guard does, and the rendering of the kept message reads
    [message.author.role] and throws. *)
Theorem reconstruct_keeps_unsigned_message :
  well_formed_message Sample.unsigned_message = false ∧
  handleSelectConversation 2 Sample.unsigned_talk = Ret [Sample.unsigned_message] ∧
  inspectable (Some Sample.unsigned_message) = None ∧
  render_history [Sample.unsigned_message] = Throw TypeError.
Proof. repeat split; reflexivity. Qed.

(** ** Assistant classification *)

Lemma classify_loop_chain m cur l :
  parent_chain m cur l →
  ∀ fuel k, (k ≤ MAX_MESSAGES_TO_CHECK)%nat → (length l + 2 ≤ fuel)%nat →
    classify_loop fuel m cur k
    = Ret (first_known (take (MAX_MESSAGES_TO_CHECK - k) (assistant_texts l))).
Proof.
  unfold MAX_MESSAGES_TO_CHECK.
  induction 1 as [cur Hc | cur id Hc Hm | cur id n l Hc Hm _ IH];
    intros fuel k Hk Hfuel;
    (destruct fuel as [|fuel]; [simpl in Hfuel; lia|]);
    cbn [classify_loop]; rewrite Hc.
  - unfold assistant_texts. cbn [omap list_omap]. by rewrite take_nil.
  - unfold classify_body, assistant_texts. rewrite Hm.
    cbn [omap list_omap]. rewrite take_nil.
    by destruct (k <? MAX_MESSAGES_TO_CHECK)%nat.
  - unfold MAX_MESSAGES_TO_CHECK.
    destruct (Nat.ltb_spec k 5) as [Hlt|Hge].
    + unfold classify_body, assistant_texts. rewrite Hm.
      cbn [omap list_omap]. unfold assistant_text at 1.
      destruct (inspectable (message n)) as [[a ps]|].
      * destruct (String.eqb (role a) "assistant").
        -- destruct (5 - k)%nat as [|j] eqn:Hj; [lia|].
           cbn [take first_known].
           destruct (known_name (toLowerCase (join " " ps))) as [name|]; [done|].
           rewrite IH by (simpl in Hfuel; lia).
           by replace (5 - S k)%nat with j by lia.
        -- apply IH; simpl in Hfuel; lia.
      * apply IH; simpl in Hfuel; lia.
    + by replace (5 - k)%nat with 0%nat by lia.
Qed.

Lemma assistant_text_inspected (n : ConversationNode) :
  assistant_text n = toLowerCase <$> inspected_text n.
Proof.
  unfold assistant_text, inspected_text, assistant_authored, node_parts,
    inspectable.
  destruct (message n) as [m|]; [|done].
  destruct (author m) as [a|], (content m) as [c|]; try done.
  - destruct (parts c) as [ps|];
      by destruct (String.eqb (role a) "assistant").
  - by destruct (String.eqb (role a) "assistant").
Qed.

Lemma assistant_texts_inspected (l : list ConversationNode) :
  assistant_texts l = toLowerCase <$> inspected_texts l.
Proof.
  unfold assistant_texts, inspected_texts.
  induction l as [|n l IH]; [done|].
  cbn [omap list_omap]. rewrite assistant_text_inspected.
  destruct (inspected_text n); cbn; by rewrite IH.
Qed.

Lemma first_known_mention (texts : list string) :
  first_known (toLowerCase <$> texts) = first_mention texts.
Proof.
  induction texts as [|t texts IH]; [done|].
  rewrite fmap_cons. cbn [first_known first_mention].
  by rewrite known_name_mentioned, IH.
Qed.

Lemma first_mention_none (texts : list string) :
  Forall (λ t, mentioned t = None) texts → first_mention texts = None.
Proof. induction 1 as [|t texts Ht _ IH]; [done|]. simpl. by rewrite Ht. Qed.

(** C2 as stated fails: the limit of five does not count the
    assistant-authored messages, it counts those among them that have
    content parts. The six nodes of [six_with_code] are all
    assistant-authored, the first five mention no known name (the tip, a
    message of type [code], has no parts and is passed over uncounted),
    and the mention of Neville in the sixth is picked up. *)
Lemma classify_reaches_sixth_assistant_message :
  mentioned (title More.six_with_code) = None ∧
  parent_chain (mapping More.six_with_code)
    (Some (current_node More.six_with_code)) More.six_with_code_chain ∧
  List.filter assistant_authored More.six_with_code_chain
  = More.six_with_code_chain ∧
  length More.six_with_code_chain = 6%nat ∧
  Forall (λ n, node_mention n = None) (take 5 More.six_with_code_chain) ∧
  (∃ n, More.six_with_code_chain !! 5%nat = Some n ∧
        node_mention n = Some "Neville") ∧
  getAssistantFromConversation 8 More.six_with_code = Ret (Some "Neville").
Proof.
  split; [reflexivity|]. split; [walk_chain|].
  split; [reflexivity|]. split; [reflexivity|].
  split; [repeat constructor|]. split; [by eexists|]. reflexivity.
Qed.

(** C2, amended. With no known name in the title, the classifier answers
    the name mentioned by the first of the first five inspected texts
    that mentions one, the names being tried in the order Lester, Osho,
    Neville. The inspected texts are those of the assistant-authored
    messages with content parts met on the way from [current_node]; every
    other node (another role, no author, no content, no parts) is walked
    through and does not count. So when the first inspected text
    mentions nobody and the second has Neville and neither Lester nor
    Osho, the answer is Neville; and when the first five mention nobody
    the answer is none, whatever the sixth and later ones say. *)
Theorem classify_first_five_inspected (c : Conversation)
    (l : list ConversationNode) (fuel : nat) :
  mentioned (title c) = None →
  parent_chain (mapping c) (Some (current_node c)) l →
  (length l + 2 ≤ fuel)%nat →
  getAssistantFromConversation fuel c
    = Ret (first_mention (take 5 (inspected_texts l))) ∧
  (∀ t1 t2 rest,
     inspected_texts l = t1 :: t2 :: rest →
     mentioned t1 = None →
     occurs_ci "Lester" t2 = false → occurs_ci "Osho" t2 = false →
     occurs_ci "Neville" t2 = true →
     getAssistantFromConversation fuel c = Ret (Some "Neville")) ∧
  (∀ five rest,
     inspected_texts l = (five ++ rest)%list →
     length five = 5%nat →
     Forall (λ t, mentioned t = None) five →
     getAssistantFromConversation fuel c = Ret None).
Proof.
  intros Htitle Hchain Hfuel.
  assert (getAssistantFromConversation fuel c
          = Ret (first_mention (take 5 (inspected_texts l)))) as Hres.
  { unfold getAssistantFromConversation.
    rewrite known_name_mentioned, Htitle.
    rewrite (classify_loop_chain _ _ _ Hchain)
      by (unfold MAX_MESSAGES_TO_CHECK; lia).
    change (MAX_MESSAGES_TO_CHECK - 0)%nat with 5%nat.
    by rewrite assistant_texts_inspected, <- fmap_take, first_known_mention. }
  split; [done|]. split.
  - intros t1 t2 rest Htexts H1 Hl Ho Hn.
    rewrite Hres, Htexts. cbn [take first_mention]. rewrite H1.
    unfold mentioned, known_names. cbn [List.find]. by rewrite Hl, Ho, Hn.
  - intros five rest Htexts Hlen Hnone.
    rewrite Hres, Htexts.
    rewrite take_app_length' by done.
    by rewrite first_mention_none.
Qed.

Lemma classify_first_five_inspected_witness :
  getAssistantFromConversation 5 Sample.second_talk = Ret (Some "Neville").
Proof.
  pose proof (classify_first_five_inspected Sample.second_talk
    [Sample.node "a1" (Some Sample.answer) (Some "u1");
     Sample.node "u1" (Some (Sample.text_message "mu" "user" ["Is this Osho?"])) (Some "a2");
     Sample.node "a2" (Some Sample.neville_message) None] 5) as H.
  destruct H as (_ & Hsecond & _).
  - reflexivity.
  - walk_chain.
  - simpl. lia.
  - eapply Hsecond; reflexivity.
Defined.

(** A mention that first comes up in the sixth assistant message is out
    of reach. *)
Example classify_six_deep fuel :
  (6 ≤ fuel)%nat → getAssistantFromConversation fuel Sample.six_deep = Ret None.
Proof.
  intros H. do 6 (destruct fuel as [|fuel]; [lia|]). reflexivity.
Qed.

(** The walk of [dangling_talk] comes to the id [ghost], which
    [mapping] lacks: the body leaves the loop there, and the
    classification is over with no name and no error. *)
Example classify_ends_at_absent_id :
  mapping Sample.dangling_talk !! "ghost" = None ∧
  classify_body (mapping Sample.dangling_talk) "ghost" 0 = Break ∧
  getAssistantFromConversation 3 Sample.dangling_talk = Ret None.
Proof. repeat split; reflexivity. Qed.



(** ** The filtered view *)

Lemma filterM_ret {A} (f : A → outcome bool) (g : A → bool) (l : list A) :
  (∀ x, x ∈ l → f x = Ret (g x)) → filterM f l = Ret (List.filter g l).
Proof.
  induction l as [|x l IH]; intros Hf; [done|].
  cbn [filterM List.filter].
  rewrite (Hf x) by apply list_elem_of_here.
  rewrite IH by (intros y Hy; apply Hf; by apply list_elem_of_further).
  done.
Qed.


Lemma filter_sublist {A} (f : A → bool) (l : list A) :
  sublist (List.filter f l) l.
Proof.
  induction l as [|x l IH]; [constructor|].
  cbn [List.filter]. destruct (f x); by constructor.
Qed.









(** ** The prompt parser *)

Section RegexFacts.
Import Regex.

















End RegexFacts.











(** The first phrase decides, and the topic stops at the line break. *)
Example interpret_topic_stops_at_line_break :
  Regex.prompt_match
    ("sammanfatta alla NEVILLE-konversationer om faith"
     +:+ String "010"%char "and more")
  = Some ("NEVILLE", "faith").
Proof. reflexivity. Qed.

(** ** Deleting and loading again *)

Lemma load_conversations (data : list Conversation) (db : Stores) :
  conversations (load data db) = data.
Proof. unfold load, loadCleanedIds. by destruct (cleanedIdsItem db). Qed.

(** The cleaned ids do come back with the next load; the sibling of the
    deletion does what the deletion lacks. *)
Lemma cleaned_ids_reloaded (data : list Conversation) (id : string)
    (st : AppState) (db : Stores) :
  cleanedConversationIds (load data (snd (saveConversation id st db)))
  = (cleanedConversationIds st ++ [id])%list.
Proof. reflexivity. Qed.

Lemma confirmDelete_conversations (id t : string) (st : AppState) (db : Stores) :
  conversations (fst (confirmDelete true (handleDeleteConversation id t st) db))
  = List.filter (λ c, negb (String.eqb (conv_id c) id)) (conversations st).
Proof. reflexivity. Qed.

(** C5. A deletion should outlive the session. Here the archive is
    loaded, [talk] (id [c1]) is deleted and the page is loaded again.
    The deletion removes [talk] from the list of the running session and
    the key [c1] from [conversationsStore]; the next load sets the list to
    the fetched archive and reads nothing from that store, so [talk] is
    back. *)
Theorem deleted_conversation_back_after_reload :
  let session := load Sample.archive Sample.fresh_stores in
  let after := delete_all ["c1"] session Sample.fresh_stores in
  conversations session = Sample.archive ∧
  (Sample.talk ∉ conversations (fst after)) ∧
  conversationsStore (snd after) !! "c1" = None ∧
  conversations (load Sample.archive (snd after)) = Sample.archive ∧
  Sample.talk ∈ conversations (load Sample.archive (snd after)).
Proof.
  cbv zeta. rewrite !load_conversations.
  split; [done|]. split.
  - cbn. intros H.
    repeat (apply elem_of_cons in H as [H | H]; [discriminate H|]).
    by apply elem_of_nil in H.
  - split; [reflexivity|]. split; [done|]. apply list_elem_of_here.
Qed.

(** ** The summarizer's walk *)

(** The body of the summarizer's loop throws exactly at a node that has
    a message without content parts. *)
Lemma collect_body_throws (m : gmap string ConversationNode)
    (id topic acc : string) :
  collect_body m id topic acc = Throw TypeError
  ↔ ∃ n msg, m !! id = Some n ∧ message n = Some msg ∧ node_parts n = None.
Proof.
  unfold collect_body, node_parts. split.
  - destruct (m !! id) as [n|]; [|done].
    destruct (message n) as [msg|] eqn:Hmsg; [|done].
    intros H. exists n, msg. split; [done|]. split; [done|]. rewrite Hmsg.
    destruct (content msg) as [c|]; [|done]. cbn in H.
    destruct (parts c) as [ps|]; [|done]. cbn in H.
    by destruct (includes _ _).
  - intros (n & msg & -> & -> & H).
    destruct (content msg) as [c|]; [|done]. cbn. by rewrite H.
Qed.

(** C9. The summarizer's walk should skip a node whose message lacks its
    content or its parts. Run on [code_talk], whose tip carries a message
    of content type [code] without parts, the walk throws a TypeError at
    [node.message.content.parts.join('')], and so does the whole
    submission; the other two walks pass over the same node. *)
Theorem summarizer_throws_on_partless_message :
  node_parts (Sample.node "n2" (Some Sample.code_message) (Some "n1")) = None ∧
  collect_loop 3 (mapping Sample.code_talk) (Some "n2") "neville" ""
  = Throw TypeError ∧
  handlePromptSubmit 3 [Sample.code_talk] (Some "key")
    "Sammanfatta alla Lester-konversationer om neville"
  = Throw TypeError ∧
  handleSelectConversation 3 Sample.code_talk = Ret [Sample.neville_message] ∧
  classify_loop 3 (mapping Sample.code_talk) (Some "n2") 0 = Ret (Some "Neville").
Proof. repeat split; reflexivity. Qed.

(** ** Termination of the walks *)

Section Termination.
Variable m : gmap string ConversationNode.

Lemma truthy_Some (o : option string) (b : string) :
  truthy o = Some b → o = Some b ∧ truthy (Some b) = Some b.
Proof.
  unfold truthy. destruct o as [s|]; [|done].
  destruct (String.eqb s "") eqn:Hs; [done|].
  intros [= <-]. by rewrite Hs.
Qed.

Lemma opt_parent_link (a b : string) :
  truthy (Some a) = Some a →
  truthy (opt_parent (m !! a)) = Some b →
  parent_link m a b ∧ truthy (Some b) = Some b.
Proof.
  intros Ha Hb. apply truthy_Some in Hb as [Hb Hb'].
  split; [|done]. split; [done|].
  destruct (m !! a) as [n|]; [|done]. by exists n.
Qed.

Lemma link_run_dom (a : string) (l : list string) :
  link_run m a l → ∀ x, x ∈ l → x ∈ dom m.
Proof.
  induction 1 as [a | a b l [_ (n & Hn & _)] _ IH]; intros x Hx.
  - by apply elem_of_nil in Hx.
  - apply elem_of_cons in Hx as [-> | Hx]; [|by apply IH].
    apply elem_of_dom. by exists n.
Qed.

Lemma link_run_reach (a : string) (l : list string) :
  link_run m a l → ∀ x, x ∈ l → rtc (parent_link m) a x.
Proof.
  induction 1 as [a | a b l Hab _ IH]; intros x Hx.
  - by apply elem_of_nil in Hx.
  - apply elem_of_cons in Hx as [-> | Hx]; [done|].
    eapply rtc_l; [done|]. by apply IH.
Qed.

Lemma acyclic_from_link (a b : string) :
  acyclic_from m a → parent_link m a b → acyclic_from m b.
Proof.
  intros Hacyc Hab x Hx. apply Hacyc. by eapply rtc_l.
Qed.

Lemma link_run_NoDup (a : string) (l : list string) :
  link_run m a l → acyclic_from m a → NoDup l.
Proof.
  induction 1 as [a | a b l Hab Hrun IH]; intros Hacyc; [constructor|].
  constructor.
  - intros Hin. apply (Hacyc a); [done|].
    eapply tc_rtc_r; [by apply tc_once|].
    by eapply link_run_reach.
  - apply IH. by eapply acyclic_from_link.
Qed.

(** A walk without a cycle follows at most as many links as [mapping]
    has nodes. *)
Lemma link_run_bound (a : string) (l : list string) :
  link_run m a l → acyclic_from m a → (length l ≤ size m)%nat.
Proof.
  intros Hrun Hacyc.
  rewrite <- size_dom. unfold size, set_size. cbn.
  apply submseteq_length, NoDup_submseteq.
  - by eapply link_run_NoDup.
  - intros x Hx. apply elem_of_elements. by eapply link_run_dom.
Qed.

Lemma history_loop_S fuel cur history :
  history_loop (S fuel) m cur history
  = match truthy cur with
    | None => Ret history
    | Some id =>
        history_loop fuel m (opt_parent (m !! id))
          match shown_message (m !! id) with
          | Some msg => msg :: history
          | None => history
          end
    end.
Proof. reflexivity. Qed.

Lemma classify_loop_S fuel cur k :
  classify_loop (S fuel) m cur k
  = match truthy cur with
    | None => Ret None
    | Some id =>
        if (k <? MAX_MESSAGES_TO_CHECK)%nat then
          match classify_body m id k with
          | Continue (next, checked) => classify_loop fuel m next checked
          | Break => Ret None
          | Return name => Ret (Some name)
          end
        else Ret None
    end.
Proof. reflexivity. Qed.

Lemma collect_loop_S fuel cur topic acc :
  collect_loop (S fuel) m cur topic acc
  = match truthy cur with
    | None => Ret acc
    | Some id =>
        collect_body m id topic acc ≫=
          λ st : option string * string, collect_loop fuel m st.1 topic st.2
    end.
Proof. reflexivity. Qed.

Lemma classify_body_continue id k next k' :
  classify_body m id k = Continue (next, k') → next = opt_parent (m !! id).
Proof.
  unfold classify_body. destruct (m !! id) as [n|]; [|done]. cbn [opt_parent].
  destruct (inspectable (message n)) as [[a ps]|]; [|by intros [= <- _]].
  destruct (String.eqb (role a) "assistant"); [|by intros [= <- _]].
  destruct (known_name _); [done|]. by intros [= <- _].
Qed.

Lemma collect_body_next id topic acc st :
  collect_body m id topic acc = Ret st → st.1 = opt_parent (m !! id).
Proof.
  unfold collect_body. destruct (m !! id) as [n|]; [|by intros [= <-]].
  destruct (message n) as [msg|]; [|by intros [= <-]].
  destruct (content msg) as [c|]; [|done]. cbn.
  destruct (parts c) as [ps|]; [|done]. cbn.
  destruct (includes _ _); by intros [= <-].
Qed.

Lemma collect_body_fuel id topic acc :
  collect_body m id topic acc ≠ OutOfFuel.
Proof.
  unfold collect_body. destruct (m !! id) as [n|]; [|done].
  destruct (message n) as [msg|]; [|done].
  destruct (content msg) as [c|]; [|done]. cbn.
  destruct (parts c) as [ps|]; [|done]. cbn.
  by destruct (includes _ _).
Qed.

(** A walk that uses up [S fuel] rounds has followed [fuel] links. *)
Lemma follows_start (cur : option string) (a : string) :
  truthy cur = Some a → follows m cur 0.
Proof. intros Ha. exists a, []. split; [done|]. split; [constructor | done]. Qed.

Lemma follows_next (cur : option string) (a : string) (fuel : nat) :
  truthy cur = Some a → follows m (opt_parent (m !! a)) fuel →
  follows m cur (S fuel).
Proof.
  intros Hcur (b & l & Hb & Hrun & Hlen).
  apply truthy_Some in Hcur as [Hcur Ha].
  apply (opt_parent_link a b Ha) in Hb as [Hab _].
  exists a, (a :: l). split; [by rewrite Hcur|]. split; [by econstructor|].
  by rewrite <- Hlen.
Qed.

Lemma history_loop_run fuel : ∀ cur history,
  history_loop (S fuel) m cur history = OutOfFuel → follows m cur fuel.
Proof.
  induction fuel as [|fuel IH]; intros cur history H;
    rewrite history_loop_S in H;
    destruct (truthy cur) as [a|] eqn:Hcur; try done.
  - by eapply follows_start.
  - eapply follows_next; [done|]. by eapply IH.
Qed.

Lemma classify_loop_run fuel : ∀ cur k,
  classify_loop (S fuel) m cur k = OutOfFuel → follows m cur fuel.
Proof.
  induction fuel as [|fuel IH]; intros cur k H;
    rewrite classify_loop_S in H;
    destruct (truthy cur) as [a|] eqn:Hcur; try done;
    destruct (k <? MAX_MESSAGES_TO_CHECK)%nat; try done;
    destruct (classify_body m a k) as [[next k']| |] eqn:Hbody; try done.
  - by eapply follows_start.
  - eapply follows_next; [done|].
    rewrite <- (classify_body_continue _ _ _ _ Hbody). by eapply IH.
Qed.

Lemma collect_loop_run fuel topic : ∀ cur acc,
  collect_loop (S fuel) m cur topic acc = OutOfFuel → follows m cur fuel.
Proof.
  induction fuel as [|fuel IH]; intros cur acc H;
    rewrite collect_loop_S in H;
    destruct (truthy cur) as [a|] eqn:Hcur; try done;
    (destruct (collect_body m a topic acc) as [st| |] eqn:Hbody;
     [| done | by apply collect_body_fuel in Hbody]);
    cbn in H.
  - by eapply follows_start.
  - eapply follows_next; [done|].
    rewrite <- (collect_body_next _ _ _ _ Hbody). by eapply IH.
Qed.

(** With no cycle ahead, a walk follows fewer links than it would need
    to use up more fuel than there are nodes. *)
Lemma follows_bound (start : string) (fuel : nat) :
  acyclic_from m start → follows m (Some start) fuel → (fuel ≤ size m)%nat.
Proof.
  intros Hacyc (a & l & Ha & Hrun & <-).
  apply truthy_Some in Ha as [[= <-] _].
  by apply (link_run_bound start).
Qed.

Variable start : string.
Hypothesis no_cycle : acyclic_from m start.
Variable fuel : nat.
Hypothesis enough : (size m + 2 ≤ fuel)%nat.

Lemma history_loop_terminates history :
  terminates (history_loop fuel m (Some start) history).
Proof.
  destruct fuel as [|fuel']; [lia|]. intros H.
  apply history_loop_run, (follows_bound _ _ no_cycle) in H. lia.
Qed.

Lemma classify_loop_terminates k :
  terminates (classify_loop fuel m (Some start) k).
Proof.
  destruct fuel as [|fuel']; [lia|]. intros H.
  apply classify_loop_run, (follows_bound _ _ no_cycle) in H. lia.
Qed.

Lemma collect_loop_terminates topic acc :
  terminates (collect_loop fuel m (Some start) topic acc).
Proof.
  destruct fuel as [|fuel']; [lia|]. intros H.
  apply collect_loop_run, (follows_bound _ _ no_cycle) in H. lia.
Qed.

End Termination.

Lemma getAssistantFromConversation_terminates (fuel : nat) (c : Conversation) :
  walkable fuel c → terminates (getAssistantFromConversation fuel c).
Proof.
  intros [Hacyc Hfuel]. unfold getAssistantFromConversation.
  destruct (known_name _); [done|]. by apply classify_loop_terminates.
Qed.

(** The [forEach] of the summarizer and the filter of the list end when
    each conversation they walk is without a cycle. *)
Lemma collect_all_terminates (fuel : nat) (convos : list Conversation)
    (topic : string) : ∀ acc,
  Forall (walkable fuel) convos → terminates (collect_all fuel convos topic acc).
Proof.
  induction convos as [|c convos IH]; intros acc Hall; [done|].
  apply Forall_cons in Hall as [[Hacyc Hfuel] Hall].
  cbn [collect_all].
  pose proof (collect_loop_terminates _ _ Hacyc _ Hfuel topic acc) as Hc.
  destruct (collect_loop _ _ _ _ _) as [acc'| |]; [|done..].
  by apply IH.
Qed.

Lemma filterM_terminates {A} (f : A → outcome bool) (l : list A) :
  Forall (λ x, terminates (f x)) l → terminates (filterM f l).
Proof.
  induction 1 as [|x l Hx _ IH]; [done|].
  cbn [filterM]. destruct (f x) as [b| |]; [|done..]. cbn.
  by destruct (filterM f l).
Qed.

Lemma filter_effect_terminates (fuel : nat) (all : list Conversation)
    (searchTerm : string) (gpts : list (string * bool)) :
  Forall (walkable fuel) all →
  terminates (filter_effect fuel all searchTerm gpts).
Proof.
  intros Hall. unfold filter_effect.
  destruct (0 <? length (selectedGpts gpts))%nat; [|done].
  apply filterM_terminates.
  assert (∀ l, Forall (walkable fuel) l →
               Forall (λ c, terminates (gpt_callback fuel (selectedGpts gpts) c)) l)
    as Hcb.
  { intros l Hl. eapply Forall_impl; [exact Hl|].
    intros c Hc. unfold gpt_callback.
    pose proof (getAssistantFromConversation_terminates fuel c Hc) as Ht.
    by destruct (getAssistantFromConversation fuel c). }
  apply Hcb. destruct (String.eqb searchTerm ""); [done|].
  apply Forall_forall. intros c Hc.
  apply list_elem_of_In, filter_In in Hc as [Hc _].
  by eapply Forall_forall in Hall; [|by apply list_elem_of_In].
Qed.

(** C10. When the parent links that [current_node] reaches form no cycle,
    each of the three walks (the reconstruction of the thread, the
    classification, and the summarizer's collection) ends, returning or
    throwing, within two rounds more than [mapping] has nodes. *)
Theorem parent_walks_terminate (c : Conversation) (fuel : nat) (topic acc : string) :
  acyclic_from (mapping c) (current_node c) →
  (size (mapping c) + 2 ≤ fuel)%nat →
  terminates (handleSelectConversation fuel c) ∧
  terminates (getAssistantFromConversation fuel c) ∧
  terminates (collect_loop fuel (mapping c) (Some (current_node c)) topic acc).
Proof.
  intros Hacyc Hfuel. split; [|split].
  - by apply history_loop_terminates.
  - by apply getAssistantFromConversation_terminates.
  - by apply collect_loop_terminates.
Qed.

Lemma talk_links (a b : string) :
  parent_link (mapping Sample.talk) a b → a = "n2" ∧ b = "n1".
Proof.
  intros [_ (n & Hn & Hp)]. unfold Sample.talk in Hn. cbn [mapping] in Hn.
  apply lookup_insert_Some in Hn as [[<- <-] | [_ Hn]]; [done|].
  apply lookup_insert_Some in Hn as [[<- <-] | [_ Hn]]; [|done].
  by injection Hp as <-.
Qed.

Lemma talk_acyclic : acyclic_from (mapping Sample.talk) "n2".
Proof.
  intros x _ Hcycle.
  inversion Hcycle as [? ? Hstep | ? z ? Hstep Hrest]; subst;
    apply talk_links in Hstep as [-> Hz]; [done|]. subst z.
  inversion Hrest as [? ? Hstep | ? z ? Hstep _]; subst;
    by apply talk_links in Hstep as [? _].
Qed.

Lemma parent_walks_terminate_witness :
  terminates (handleSelectConversation 4 Sample.talk) ∧
  terminates (getAssistantFromConversation 4 Sample.talk) ∧
  terminates (collect_loop 4 (mapping Sample.talk) (Some "n2") "stillness" "").
Proof.
  apply (parent_walks_terminate Sample.talk 4 "stillness" "").
  - apply talk_acyclic.
  - vm_compute. lia.
Defined.

(** ** Timestamps *)

Section Calendar.
Import JsDate.
Open Scope Z_scope.

Lemma DayFromYear_mono (a b : Z) : a ≤ b → DayFromYear a ≤ DayFromYear b.
Proof. unfold DayFromYear. Z.div_mod_to_equations. lia. Qed.

Lemma year_upto_spec (fuel : nat) : ∀ y d,
  DayFromYear y ≤ d → d < DayFromYear (y + 1 + Z.of_nat fuel) →
  DayFromYear (year_upto fuel y d) ≤ d < DayFromYear (year_upto fuel y d + 1).
Proof.
  induction fuel as [|fuel IH]; intros y d Hlo Hhi; cbn [year_upto].
  - by replace (y + 1 + Z.of_nat 0) with (y + 1) in Hhi by lia.
  - destruct (Z.leb_spec (DayFromYear (y + 1)) d) as [Hle|Hgt]; [|lia].
    apply IH; [done|].
    by replace (y + 1 + 1 + Z.of_nat fuel) with (y + 1 + Z.of_nat (S fuel)) by lia.
Qed.

Lemma YearFromTime_day (t : Z) :
  DayFromYear (YearFromTime t) ≤ Day t < DayFromYear (YearFromTime t + 1).
Proof.
  unfold YearFromTime. set (d := Day t). clearbody d.
  destruct (Z.leb_spec 0 d) as [Hd|Hd]; apply year_upto_spec.
  - unfold DayFromYear. Z.div_mod_to_equations. lia.
  - rewrite Z2Nat.id by (Z.div_mod_to_equations; lia).
    eapply Z.lt_le_trans; [|apply (DayFromYear_mono (1971 + d / 365)); lia].
    unfold DayFromYear. Z.div_mod_to_equations. lia.
  - unfold DayFromYear. Z.div_mod_to_equations. lia.
  - rewrite Z2Nat.id by (Z.div_mod_to_equations; lia).
    eapply Z.lt_le_trans; [|apply (DayFromYear_mono (1971 + d / 366)); lia].
    unfold DayFromYear. Z.div_mod_to_equations. lia.
Qed.

Lemma TimeFromYear_Day (t y : Z) :
  (TimeFromYear y ≤ t ↔ DayFromYear y ≤ Day t) ∧
  (t < TimeFromYear y ↔ Day t < DayFromYear y).
Proof.
  unfold TimeFromYear, Day, msPerDay.
  generalize (DayFromYear y). intros D.
  Z.div_mod_to_equations. lia.
Qed.

(** [YearFromTime] answers the calendar year, and only it is one. *)
Lemma YearFromTime_calendar (t : Z) : calendar_year t (YearFromTime t).
Proof.
  unfold calendar_year. pose proof (YearFromTime_day t) as [Hlo Hhi].
  split.
  - by apply TimeFromYear_Day.
  - by apply TimeFromYear_Day.
Qed.

Lemma calendar_year_unique (t y y' : Z) :
  calendar_year t y → calendar_year t y' → y = y'.
Proof.
  unfold calendar_year. intros [Hlo Hhi] [Hlo' Hhi'].
  apply TimeFromYear_Day in Hlo, Hhi, Hlo', Hhi'.
  destruct (Z.lt_trichotomy y y') as [Hlt | [Heq | Hgt]]; [|done|].
  - pose proof (DayFromYear_mono (y + 1) y'). lia.
  - pose proof (DayFromYear_mono (y' + 1) y). lia.
Qed.

End Calendar.

Section FormatDate.
Import JsDate.
Open Scope Z_scope.

Variable LocalTZA : Z → Z.

Lemma getFullYear_calendar (date : Date) (y : Z) :
  getFullYear LocalTZA date = Some y
  ↔ ∃ t, date = Some t ∧ calendar_year (LocalTime LocalTZA t) y.
Proof.
  unfold getFullYear. destruct date as [t|].
  - split.
    + intros [= <-]. exists t. split; [done|]. apply YearFromTime_calendar.
    + intros (t' & [= <-] & Hy). f_equal.
      eapply calendar_year_unique; [apply YearFromTime_calendar | done].
  - split; [done|]. by intros (t & ? & _).
Qed.

Lemma formatDate_sentinel (timestamp : Z) :
  formatDate LocalTZA timestamp = Ogiltigt_datum
  ↔ ∃ y, getFullYear LocalTZA (new_Date (timestampInMs timestamp)) = Some y
         ∧ (y < 2020 ∨ 2025 < y).
Proof.
  unfold formatDate.
  destruct (getFullYear LocalTZA (new_Date (timestampInMs timestamp))) as [y|];
    cbn [num_lt num_gt].
  - destruct (Z.ltb_spec y 2020), (Z.ltb_spec 2025 y); cbn [orb]; split;
      try done; try (intros _; exists y; split; [done | lia]).
    intros (y' & [= <-] & Hy). lia.
  - cbn [orb]. split; [done|]. by intros (y & ? & _).
Qed.

(** On whole-number timestamps, with local time at most a day off UTC:
    the timestamp is brought to milliseconds by its magnitude (below 1e10
    it counts seconds and is multiplied by 1000, above 1e12 it counts
    microseconds and is divided by 1000, in between it is kept), and the
    answer is the fixed text exactly when the [Date] built from it has a
    time value and the calendar year of its local time lies outside 2020
    to 2025. *)
Lemma formatDate_year_window :
  (∀ t, - msPerDay ≤ LocalTZA t ≤ msPerDay) →
  ∀ timestamp : Z,
    (timestamp < 10 ^ 10 → timestampInMs timestamp = timestamp * 1000) ∧
    (10 ^ 12 < timestamp →
       timestampInMs timestamp = timestamp ÷ 1000 ∧
       1000 * timestampInMs timestamp ≤ timestamp
         < 1000 * timestampInMs timestamp + 1000) ∧
    (10 ^ 10 ≤ timestamp ≤ 10 ^ 12 → timestampInMs timestamp = timestamp) ∧
    (formatDate LocalTZA timestamp = Ogiltigt_datum
     ↔ ∃ t y, new_Date (timestampInMs timestamp) = Some t ∧
              calendar_year (LocalTime LocalTZA t) y ∧
              (y < 2020 ∨ 2025 < y)) ∧
    (∀ t, new_Date (timestampInMs timestamp) = Some t →
          calendar_year (LocalTime LocalTZA t) 2030 →
          formatDate LocalTZA timestamp = Ogiltigt_datum) ∧
    formatDate LocalTZA 1700000000 = LocaleDateString (Some 1700000000000) ∧
    getFullYear LocalTZA (new_Date (timestampInMs 1700000000)) = Some 2023.
Proof.
  intros Htz timestamp.
  assert (formatDate LocalTZA timestamp = Ogiltigt_datum
          ↔ ∃ t y, new_Date (timestampInMs timestamp) = Some t ∧
                   calendar_year (LocalTime LocalTZA t) y ∧
                   (y < 2020 ∨ 2025 < y)) as Hwindow.
  { rewrite formatDate_sentinel. split.
    - intros (y & Hy & Hout). apply getFullYear_calendar in Hy as (t & Ht & Hy).
      by exists t, y.
    - intros (t & y & Ht & Hy & Hout). exists y. split; [|done].
      apply getFullYear_calendar. by exists t. }
  assert (getFullYear LocalTZA (new_Date (timestampInMs 1700000000)) = Some 2023)
    as H2023.
  { apply getFullYear_calendar. exists 1700000000000. split; [reflexivity|].
    unfold calendar_year, LocalTime.
    change (TimeFromYear 2023) with 1672531200000.
    change (TimeFromYear (2023 + 1)) with 1704067200000.
    specialize (Htz 1700000000000). unfold msPerDay in Htz. lia. }
  unfold timestampInMs.
  repeat split.
  - intros H. destruct (Z.ltb_spec timestamp 10000000000); [done | lia].
  - destruct (Z.ltb_spec timestamp 10000000000); [lia|].
    destruct (Z.ltb_spec 1000000000000 timestamp); [done | lia].
  - destruct (Z.ltb_spec timestamp 10000000000); [lia|].
    destruct (Z.ltb_spec 1000000000000 timestamp); [|lia].
    rewrite Z.quot_div_nonneg by lia. Z.div_mod_to_equations. lia.
  - destruct (Z.ltb_spec timestamp 10000000000); [lia|].
    destruct (Z.ltb_spec 1000000000000 timestamp); [|lia].
    rewrite Z.quot_div_nonneg by lia. Z.div_mod_to_equations. lia.
  - intros [Hlo Hhi].
    destruct (Z.ltb_spec timestamp 10000000000); [lia|].
    destruct (Z.ltb_spec 1000000000000 timestamp); [lia | done].
  - apply Hwindow.
  - apply Hwindow.
  - intros t Ht Hy. apply Hwindow. exists t, 2030. split; [done|].
    split; [done | lia].
  - unfold formatDate. rewrite H2023. reflexivity.
  - exact H2023.
Qed.

End FormatDate.

Example formatDate_year_2023 :
  formatDate (λ _, 3600000%Z) 1700000000 = LocaleDateString (Some 1700000000000%Z).
Proof.
  apply (formatDate_year_window (λ _, 3600000%Z)).
  - intros _. unfold JsDate.msPerDay. lia.
  - exact 0%Z.
Defined.

(** A seconds timestamp of March 2030 gives the fixed text, in UTC; so
    does a milliseconds timestamp of today, which is taken for
    microseconds; a time value past the range of [Date] has no year and is
    rendered as it is. *)
Example formatDate_samples :
  formatDate (λ _, 0%Z) 1900000000 = Ogiltigt_datum ∧
  formatDate (λ _, 0%Z) 1700000000000 = Ogiltigt_datum ∧
  formatDate (λ _, 0%Z) (10 ^ 19) = LocaleDateString None.
Proof. repeat split; reflexivity. Qed.


(** C8. The fixed text should be the answer whenever the year is not one
    of 2020 to 2025 (the source: verify that the date is reasonable). A
    timestamp of 1e19 counts as microseconds and comes to 1e16
    milliseconds (both are doubles, the quotient is exact), past the
    8.64e15 that a [Date] can hold, and one of
    -8640000000001 counts as seconds and comes to a value below
    -8.64e15: the [Date] is invalid and its year is NaN, which is
    neither below 2020 nor above 2025. So [formatDate] does not answer
    the fixed text there: it hands out the rendering of the invalid
    [Date], in every time zone. *)
Theorem formatDate_passes_invalid_date (LocalTZA : Z → Z) :
  timestampInMs (10 ^ 19) = (10 ^ 16)%Z ∧
  JsDate.new_Date (timestampInMs (10 ^ 19)) = None ∧
  JsDate.getFullYear LocalTZA (JsDate.new_Date (timestampInMs (10 ^ 19))) = None ∧
  formatDate LocalTZA (10 ^ 19) = LocaleDateString None ∧
  formatDate LocalTZA (10 ^ 19) ≠ Ogiltigt_datum ∧
  formatDate LocalTZA (-8640000000001) = LocaleDateString None ∧
  formatDate LocalTZA (-8640000000001) ≠ Ogiltigt_datum.
Proof. repeat split; try reflexivity; discriminate. Qed.

(** * Further properties *)

(** ** Thread reconstruction on any chain *)

Lemma shown_sublist (l : list ConversationNode) :
  sublist (List.map Some (shown l)) (List.map message l).
Proof.
  induction l as [|n l IH]; [constructor|].
  unfold shown in *. cbn [omap list_omap List.map].
  destruct (shown_message (Some n)) as [msg|] eqn:Hn.
  - apply shown_message_iff in Hn as [-> _]. cbn [List.map]. by constructor.
  - by constructor.
Qed.

Lemma elem_of_shown (l : list ConversationNode) (msg : Message) :
  msg ∈ shown l ↔ ∃ n, n ∈ l ∧ shown_message (Some n) = Some msg.
Proof. unfold shown. apply list_elem_of_omap. Qed.

(** X1. On any parent chain, well-formed or not, the reconstruction
    returns the messages of the chain that have a content with at least
    one part, and only them, from the root to the tip; the nodes without
    such a message are passed over, and a parent id that [mapping] lacks
    ends the chain without an error. *)
Theorem reconstruct_partial (c : Conversation) (l : list ConversationNode) (fuel : nat) :
  parent_chain (mapping c) (Some (current_node c)) l →
  (length l + 2 ≤ fuel)%nat →
  handleSelectConversation fuel c = Ret (rev (shown l)) ∧
  sublist (List.map Some (shown l)) (List.map message l) ∧
  (∀ n msg, n ∈ l → message n = Some msg →
     (msg ∈ shown l ↔ ∃ co p ps, content msg = Some co ∧ parts co = Some (p :: ps))).
Proof.
  intros Hchain Hfuel. split; [|split].
  - unfold handleSelectConversation.
    rewrite (history_loop_chain _ _ _ Hchain) by done. by rewrite app_nil_r.
  - apply shown_sublist.
  - intros n msg Hn Hmsg. rewrite elem_of_shown. split.
    + intros (n' & _ & H). by apply shown_message_iff in H as [_ H].
    + intros H. exists n. split; [done|]. by apply shown_message_iff.
Qed.

Lemma reconstruct_partial_witness :
  handleSelectConversation 3 Sample.dangling_talk = Ret [Sample.question].
Proof.
  apply (reconstruct_partial Sample.dangling_talk
           [Sample.node "n2" (Some Sample.question) (Some "ghost")] 3).
  - walk_chain.
  - simpl. lia.
Defined.

(** ** Cycles *)

Section Cycles.
Variable m : gmap string ConversationNode.

Lemma links_run (n : nat) (a b : string) :
  links m n a b → ∃ l, link_run m a l ∧ length l = n.
Proof.
  unfold links. induction 1 as [a | n a b c Hab _ (l & Hrun & Hlen)].
  - exists []. split; [constructor | done].
  - exists (a :: l). split; [by econstructor | by rewrite <- Hlen].
Qed.

Lemma next_towards_cycle (b x : string) :
  rtc (parent_link m) b x → tc (parent_link m) x x →
  ∃ c, parent_link m b c ∧ rtc (parent_link m) c x.
Proof.
  intros Hbx Hcyc. destruct Hbx as [b | b c x Hbc Hcx].
  - inversion Hcyc as [? ? Hstep | ? y ? Hstep Hrest]; subst.
    + by exists b.
    + exists y. split; [done|]. by apply tc_rtc.
  - by exists c.
Qed.

(** From an id that reaches a cycle, runs of links of every length. *)
Lemma links_unbounded (x : string) (n : nat) : ∀ b,
  rtc (parent_link m) b x → tc (parent_link m) x x → ∃ c, links m n b c.
Proof.
  unfold links. intros b Hbx Hcyc.
  assert (∃ c, nsteps (parent_link m) n b c ∧ rtc (parent_link m) c x)
    as (c & Hc & _); [|by exists c].
  revert b Hbx. induction n as [|n IH]; intros b Hbx.
  - exists b. split; [constructor | done].
  - destruct (next_towards_cycle b x Hbx Hcyc) as (c & Hbc & Hcx).
    destruct (IH c Hcx) as (d & Hd & Hdx).
    exists d. split; [by econstructor | done].
Qed.

Lemma history_loop_starves (a : string) (l : list string) :
  link_run m a l → ∀ n history, length l = S n →
  history_loop (S n) m (Some a) history = OutOfFuel.
Proof.
  induction 1 as [a | a b l Hab Hrun IH]; intros n history Hlen; [done|].
  rewrite history_loop_S.
  destruct Hab as [Ha (node & Hnode & Hparent)]. rewrite Ha, Hnode.
  cbn [opt_parent]. rewrite Hparent.
  destruct n as [|n]; [done|].
  apply IH. simpl in Hlen. lia.
Qed.

Lemma collect_loop_starves (topic : string) (a : string) (l : list string) :
  link_run m a l → ∀ n acc content, length l = S n →
  collect_loop (S n) m (Some a) topic acc ≠ Ret content.
Proof.
  induction 1 as [a | a b l Hab Hrun IH]; intros n acc content Hlen; [done|].
  rewrite collect_loop_S.
  destruct Hab as [Ha (node & Hnode & Hparent)]. rewrite Ha.
  destruct (collect_body m a topic acc) as [st| |] eqn:Hbody; [|done..].
  cbn. rewrite (collect_body_next _ _ _ _ _ Hbody), Hnode.
  cbn [opt_parent]. rewrite Hparent.
  destruct n as [|n]; [done|].
  apply IH. simpl in Hlen. lia.
Qed.

End Cycles.

(** X2. The reconstruction of a thread comes to an end exactly when the
    parent links that [current_node] reaches form no cycle: with a cycle
    ahead the loop of [handleSelectConversation] never ends, whatever
    the nodes carry. *)
Theorem reconstruct_ends_iff_acyclic (c : Conversation) :
  (∃ fuel, terminates (handleSelectConversation fuel c))
  ↔ acyclic_from (mapping c) (current_node c).
Proof.
  split.
  - intros [fuel Hends] x Hreach Hcyc. apply Hends.
    destruct fuel as [|n]; [done|].
    destruct (links_unbounded _ x (S n) _ Hreach Hcyc) as (b & Hb).
    apply links_run in Hb as (l & Hrun & Hlen).
    by eapply history_loop_starves.
  - intros Hacyc. exists (size (mapping c) + 2)%nat.
    by apply history_loop_terminates.
Qed.

(** X3. With a cycle ahead of [current_node] the summarizer's walk never
    hands back a content: it runs on without end, unless it throws at a
    message without parts on the way. *)
Theorem summarizer_walk_stuck_on_cycle (c : Conversation) (x : string)
    (fuel : nat) (topic acc content : string) :
  rtc (parent_link (mapping c)) (current_node c) x →
  tc (parent_link (mapping c)) x x →
  collect_loop fuel (mapping c) (Some (current_node c)) topic acc ≠ Ret content.
Proof.
  intros Hreach Hcyc.
  destruct fuel as [|n]; [done|].
  destruct (links_unbounded _ x (S n) _ Hreach Hcyc) as (b & Hb).
  apply links_run in Hb as (l & Hrun & Hlen).
  by eapply collect_loop_starves.
Qed.

Lemma loop_talk_link : parent_link (mapping More.loop_talk) "n1" "n1".
Proof. split; [reflexivity|]. by exists More.loop_node. Qed.

Lemma summarizer_walk_stuck_on_cycle_witness :
  collect_loop 7 (mapping More.loop_talk) (Some "n1") "stillness" ""
  ≠ Ret "What is stillness?".
Proof.
  apply (summarizer_walk_stuck_on_cycle More.loop_talk "n1").
  - apply rtc_refl.
  - apply tc_once, loop_talk_link.
Defined.

(** ** What the classifier can answer *)

Lemma known_name_known (text a : string) :
  known_name text = Some a → a ∈ known_names.
Proof.
  unfold known_name, known_names.
  destruct (includes text "lester"); [intros [= <-]; set_solver|].
  destruct (includes text "osho"); [intros [= <-]; set_solver|].
  destruct (includes text "neville"); [intros [= <-]; set_solver|done].
Qed.

Lemma classify_loop_known (m : gmap string ConversationNode) (fuel : nat) :
  ∀ cur k a, classify_loop fuel m cur k = Ret (Some a) → a ∈ known_names.
Proof.
  induction fuel as [|fuel IH]; intros cur k a H; [done|].
  rewrite classify_loop_S in H.
  destruct (truthy cur) as [id|]; [|done].
  destruct (k <? MAX_MESSAGES_TO_CHECK)%nat; [|done].
  unfold classify_body in H.
  destruct (m !! id) as [node|]; [|done].
  destruct (inspectable (message node)) as [[au ps]|]; [|by eapply IH].
  destruct (String.eqb (role au) "assistant"); [|by eapply IH].
  destruct (known_name _) as [name|] eqn:Hname; [|by eapply IH].
  injection H as <-. by eapply known_name_known.
Qed.

Lemma getAssistantFromConversation_known fuel c a :
  getAssistantFromConversation fuel c = Ret (Some a) → a ∈ known_names.
Proof.
  unfold getAssistantFromConversation.
  destruct (known_name _) as [name|] eqn:Hname.
  - intros [= <-]. by eapply known_name_known.
  - apply classify_loop_known.
Qed.

(** X4. Whatever the conversation holds, the classifier answers none or
    one of Lester, Osho and Neville, and a known name in the title
    decides without any walk (so also when the walk would not end);
    [getAssistantName] then gives one of these three names or
    [Assistant], and so does the label over an assistant's bubble of a
    selected conversation. *)
Theorem classifier_answers_known_names (fuel : nat) (c : Conversation) :
  (∀ a, getAssistantFromConversation fuel c = Ret (Some a) → a ∈ known_names) ∧
  (∀ name, known_name (toLowerCase (title c)) = Some name →
     getAssistantFromConversation 0 c = Ret (Some name)) ∧
  (∀ label, getAssistantName fuel c = Ret label →
     label ∈ "Assistant" :: known_names) ∧
  (∀ msg a label,
     author msg = Some a → role a = "assistant" →
     bubble_label fuel (Some c) msg = Ret label →
     label ∈ "Assistant" :: known_names).
Proof.
  assert (∀ label, getAssistantName fuel c = Ret label →
                   label ∈ "Assistant" :: known_names) as Hname.
  { intros label. unfold getAssistantName.
    destruct (getAssistantFromConversation fuel c) as [[a|]| |] eqn:Hc;
      cbn; intros [= <-].
    - apply list_elem_of_further. by eapply getAssistantFromConversation_known.
    - apply list_elem_of_here. }
  split; [|split; [|split]].
  - apply getAssistantFromConversation_known.
  - intros name H. unfold getAssistantFromConversation. by rewrite H.
  - done.
  - intros msg a label Hau Hrole. unfold bubble_label.
    rewrite Hau. cbn. rewrite Hrole. cbn. apply Hname.
Qed.

(** ** The rendering of a reconstructed thread *)

Lemma render_message_kept (n : ConversationNode) (msg : Message) :
  shown_message (Some n) = Some msg →
  match author msg with
  | Some _ => ∃ bubble, render_message msg = Ret bubble
  | None => render_message msg = Throw TypeError
  end.
Proof.
  intros H. apply shown_message_iff in H as [_ (co & p & ps & Hco & Hps)].
  unfold render_message. rewrite Hco.
  destruct (author msg) as [a|]; cbn; [|done].
  rewrite Hps. cbn. by eexists.
Qed.

Lemma render_history_kept (history : list Message) :
  Forall (λ msg, ∃ n, shown_message (Some n) = Some msg) history →
  (render_history history = Throw TypeError
   ↔ ∃ msg, msg ∈ history ∧ author msg = None) ∧
  ((∀ msg, msg ∈ history → author msg ≠ None) →
   ∃ bubbles, render_history history = Ret bubbles
              ∧ length bubbles = length history).
Proof.
  induction 1 as [|msg history [n Hn] _ [IHthrow IHret]].
  - split.
    + split; [done|]. intros (msg & Hmsg & _). by apply elem_of_nil in Hmsg.
    + intros _. by exists [].
  - pose proof (render_message_kept n msg Hn) as Hmsg.
    cbn [render_history].
    destruct (author msg) as [a|] eqn:Ha.
    + destruct Hmsg as [bubble ->]. cbn. split.
      * split.
        -- intros H.
           destruct (render_history history) as [bs|e|] eqn:Hrest; try done.
           destruct IHthrow as [IH _].
           destruct IH as (msg' & Hin & Hnone); [by destruct e|].
           exists msg'. split; [by apply list_elem_of_further | done].
        -- intros (msg' & Hin & Hnone).
           apply elem_of_cons in Hin as [-> | Hin]; [congruence|].
           destruct IHthrow as [_ IH]. rewrite IH; [done|]. by exists msg'.
      * intros Hall.
        destruct IHret as (bs & -> & Hlen).
        { intros msg' Hin. apply Hall. by apply list_elem_of_further. }
        exists (bubble :: bs). cbn. by rewrite Hlen.
    + rewrite Hmsg. cbn. split.
      * split; [|done]. intros _. exists msg.
        split; [apply list_elem_of_here | done].
      * intros Hall. by destruct (Hall msg (list_elem_of_here _ _)).
Qed.

(** X5. The thread that the reconstruction hands over is rendered bubble
    by bubble when each kept message has an author, and the rendering
    throws a TypeError exactly when one of them has none: content and
    parts are there for each kept message, the author is the one thing
    the rendering reads that the reconstruction did not test. *)
Theorem render_of_reconstructed_thread (c : Conversation)
    (l : list ConversationNode) (fuel : nat) :
  parent_chain (mapping c) (Some (current_node c)) l →
  (length l + 2 ≤ fuel)%nat →
  ∃ history,
    handleSelectConversation fuel c = Ret history ∧
    (render_history history = Throw TypeError
     ↔ ∃ msg, msg ∈ history ∧ author msg = None) ∧
    ((∀ msg, msg ∈ history → author msg ≠ None) →
     ∃ bubbles, render_history history = Ret bubbles
                ∧ length bubbles = length history).
Proof.
  intros Hchain Hfuel. exists (rev (shown l)). split.
  - unfold handleSelectConversation.
    rewrite (history_loop_chain _ _ _ Hchain) by done. by rewrite app_nil_r.
  - apply render_history_kept. apply Forall_forall. intros msg Hmsg.
    apply list_elem_of_In, in_rev, list_elem_of_In in Hmsg.
    apply elem_of_shown in Hmsg as (n & _ & Hn). by exists n.
Qed.

Lemma render_of_reconstructed_thread_witness :
  ∃ history,
    handleSelectConversation 4 Sample.talk = Ret history ∧
    (render_history history = Throw TypeError
     ↔ ∃ msg, msg ∈ history ∧ author msg = None) ∧
    ((∀ msg, msg ∈ history → author msg ≠ None) →
     ∃ bubbles, render_history history = Ret bubbles
                ∧ length bubbles = length history).
Proof.
  apply (render_of_reconstructed_thread Sample.talk [Sample.tip; Sample.root] 4).
  - walk_chain.
  - simpl. lia.
Defined.

(** ** The filtered view, once more *)

Lemma filterM_sublist {A} (f : A → outcome bool) (l r : list A) :
  filterM f l = Ret r → sublist r l.
Proof.
  revert r. induction l as [|x l IH]; intros r H.
  - injection H as <-. constructor.
  - cbn [filterM] in H.
    destruct (f x) as [b| |]; [|done..]. cbn in H.
    destruct (filterM f l) as [r'| |]; [|done..]. cbn in H.
    injection H as <-. destruct b; constructor; by apply IH.
Qed.

Lemma filterM_again {A} (f : A → outcome bool) (l r : list A) :
  filterM f l = Ret r → filterM f r = Ret r.
Proof.
  revert r. induction l as [|x l IH]; intros r H.
  - by injection H as <-.
  - cbn [filterM] in H.
    destruct (f x) as [b| |] eqn:Hx; [|done..]. cbn in H.
    destruct (filterM f l) as [r'| |]; [|done..]. cbn in H.
    injection H as <-. specialize (IH r' eq_refl).
    destruct b; [|done]. cbn [filterM]. rewrite Hx. cbn. by rewrite IH.
Qed.

Lemma filter_all_true {A} (f : A → bool) (l : list A) :
  Forall (λ x, f x = true) l → List.filter f l = l.
Proof.
  induction 1 as [|x l Hx _ IH]; [done|].
  cbn [List.filter]. by rewrite Hx, IH.
Qed.

Lemma filter_Forall {A} (f : A → bool) (l : list A) :
  Forall (λ x, f x = true) (List.filter f l).
Proof.
  apply Forall_forall. intros x Hx.
  by apply list_elem_of_In, filter_In in Hx as [_ Hx].
Qed.

Lemma filter_effect_again (fuel : nat) (all result : list Conversation)
    (searchTerm : string) (gpts : list (string * bool)) :
  filter_effect fuel all searchTerm gpts = Ret result →
  sublist result all ∧
  filter_effect fuel result searchTerm gpts = Ret result.
Proof.
  unfold filter_effect.
  set (sel := selectedGpts gpts).
  destruct (String.eqb searchTerm "") eqn:Hs.
  - destruct (0 <? length sel)%nat.
    + intros H. split; [by eapply filterM_sublist | by eapply filterM_again].
    + by intros [= <-].
  - destruct (0 <? length sel)%nat.
    + intros H.
      pose proof (filterM_sublist _ _ _ H) as Hsub.
      split; [etrans; [done | apply filter_sublist]|].
      rewrite filter_all_true; [by eapply filterM_again|].
      apply Forall_forall. intros c Hc.
      pose proof (elem_of_sublist _ _ _ Hc Hsub) as Hin.
      by apply list_elem_of_In, filter_In in Hin as [_ Hin].
    + intros [= <-]. split; [apply filter_sublist|].
      f_equal. apply filter_all_true, filter_Forall.
Qed.

(** X6. Whenever the filter effect returns a list, that list is part of
    the input in the input's order, and running the effect again on it
    with the same search term and check boxes returns it unchanged. *)
Theorem filter_effect_settles (fuel : nat) (all result : list Conversation)
    (searchTerm : string) (gpts : list (string * bool)) :
  filter_effect fuel all searchTerm gpts = Ret result →
  sublist result all ∧
  filter_effect fuel result searchTerm gpts = Ret result.
Proof. apply filter_effect_again. Qed.

Lemma filter_effect_settles_witness :
  sublist [Sample.second_talk] Sample.archive ∧
  filter_effect 9 [Sample.second_talk] "talk"
    [("Lester", true); ("Osho", false); ("Neville", true)]
  = Ret [Sample.second_talk].
Proof.
  apply (filter_effect_settles 9 Sample.archive [Sample.second_talk] "talk"
           [("Lester", true); ("Osho", false); ("Neville", true)]).
  reflexivity.
Defined.

(** X7. With the check boxes as they are at the start (all three ticked)
    and no search term, the view holds exactly the conversations that the
    classifier gives a name to: a conversation it cannot classify is not
    listed. *)
Theorem default_view_is_the_classified (fuel : nat) (all : list Conversation)
    (cls : Conversation → option string) :
  (∀ c, c ∈ all → getAssistantFromConversation fuel c = Ret (cls c)) →
  filter_effect fuel all "" initial_gpts
  = Ret (List.filter (λ c, bool_decide (is_Some (cls c))) all).
Proof.
  intros Hcls. unfold filter_effect. cbn.
  rewrite (filterM_ret _ (λ c, bool_decide (is_Some (cls c)))); [done|].
  intros c Hc. unfold gpt_callback. rewrite (Hcls c Hc). cbn.
  destruct (cls c) as [a|] eqn:Ha.
  - pose proof (Hcls c Hc) as H. rewrite Ha in H.
    apply getAssistantFromConversation_known in H.
    f_equal. rewrite (bool_decide_eq_true_2 (is_Some (Some a))) by (by eexists).
    by apply bool_decide_eq_true_2.
  - reflexivity.
Qed.

Lemma default_view_is_the_classified_witness :
  filter_effect 9 Sample.archive "" initial_gpts
  = Ret [Sample.second_talk; Sample.code_talk].
Proof.
  rewrite (default_view_is_the_classified 9 Sample.archive
             (λ c, match getAssistantFromConversation 9 c with
                   | Ret r => r
                   | _ => None
                   end)).
  - reflexivity.
  - intros c Hc. unfold Sample.archive in Hc.
    repeat (apply elem_of_cons in Hc as [-> | Hc]; [reflexivity|]).
    by apply elem_of_nil in Hc.
Defined.

(** ** What the summarizer collects *)










(** ** Prompts in the advertised format *)



(** ** Which timestamps are rendered *)

Section Bands.
Import JsDate.
Open Scope Z_scope.
Variable LocalTZA : Z → Z.
Hypothesis near_utc : ∀ t, - msPerDay ≤ LocalTZA t ≤ msPerDay.

Lemma TimeFromYear_mono (a b : Z) : a ≤ b → TimeFromYear a ≤ TimeFromYear b.
Proof.
  intros H. unfold TimeFromYear, msPerDay.
  pose proof (DayFromYear_mono a b H). lia.
Qed.

Lemma rendered_window (timestamp ms : Z) :
  formatDate LocalTZA timestamp = LocaleDateString (Some ms) →
  ms = timestampInMs timestamp ∧ 1577750400000 ≤ ms < 1767312000000.
Proof.
  unfold formatDate, new_Date, TimeClip.
  destruct (8640000000000000 <? Z.abs (timestampInMs timestamp)).
  { cbn. by intros [=]. }
  cbn [getFullYear num_lt num_gt].
  set (t := timestampInMs timestamp).
  pose proof (YearFromTime_calendar (LocalTime LocalTZA t)) as [Hlo Hhi].
  set (y := YearFromTime (LocalTime LocalTZA t)) in *.
  destruct (Z.ltb_spec y 2020) as [|Hy1]; [done|].
  destruct (Z.ltb_spec 2025 y) as [|Hy2]; [done|].
  cbn [orb]. intros [= <-]. split; [done|].
  pose proof (TimeFromYear_mono 2020 y Hy1) as H1.
  pose proof (TimeFromYear_mono (y + 1) 2026 ltac:(lia)) as H2.
  change (TimeFromYear 2020) with 1577836800000 in H1.
  change (TimeFromYear 2026) with 1767225600000 in H2.
  unfold LocalTime in *. specialize (near_utc t). unfold msPerDay in near_utc.
  lia.
Qed.

(** X11. A date is rendered only for a timestamp in one of two bands: a
    count of seconds, or a count of microseconds, of a time from the last
    day of 2019 to the first day of 2026. Every other timestamp from 1e10
    up to the microseconds band, and so every count of milliseconds of a
    time after April 1970, gives the fixed text for an invalid date. *)
Theorem formatDate_renders_two_bands (timestamp : Z) :
  (∀ ms, formatDate LocalTZA timestamp = LocaleDateString (Some ms) →
     (1577750400 ≤ timestamp < 1767312000 ∧ ms = timestamp * 1000) ∨
     (1577750400000000 ≤ timestamp < 1767312000000000 ∧
      ms = timestamp ÷ 1000)) ∧
  (10 ^ 10 ≤ timestamp < 1577750400000000 →
     formatDate LocalTZA timestamp = Ogiltigt_datum).
Proof.
  assert (∀ ms, formatDate LocalTZA timestamp = LocaleDateString (Some ms) →
     (1577750400 ≤ timestamp < 1767312000 ∧ ms = timestamp * 1000) ∨
     (1577750400000000 ≤ timestamp < 1767312000000000 ∧
      ms = timestamp ÷ 1000)) as Hbands.
  { intros ms H. apply rendered_window in H as [-> Hms].
    unfold timestampInMs in *.
    destruct (Z.ltb_spec timestamp 10000000000); [left; lia|].
    destruct (Z.ltb_spec 1000000000000 timestamp); [|lia].
    right. split; [|done].
    rewrite Z.quot_div_nonneg in Hms by lia.
    Z.div_mod_to_equations. lia. }
  split; [done|].
  intros Hrange.
  destruct (formatDate LocalTZA timestamp) as [|[ms|]] eqn:Hf; [done| |].
  - destruct (Hbands ms eq_refl) as [[? _] | [? _]]; lia.
  - exfalso. unfold formatDate, new_Date, TimeClip, timestampInMs in Hf.
    destruct (Z.ltb_spec timestamp 10000000000); [lia|].
    destruct (Z.ltb_spec 1000000000000 timestamp).
    + rewrite Z.quot_div_nonneg in Hf by lia.
      destruct (Z.ltb_spec 8640000000000000 (Z.abs (timestamp / 1000)))
        as [Hbig|]; [|by destruct (_ || _)].
      revert Hbig. Z.div_mod_to_equations. lia.
    + destruct (Z.ltb_spec 8640000000000000 (Z.abs timestamp)) as [Hbig|];
        [lia | by destruct (_ || _)].
Qed.

End Bands.

Lemma formatDate_renders_two_bands_witness :
  formatDate (λ _, 7200000%Z) 1700000000000 = Ogiltigt_datum.
Proof.
  apply (formatDate_renders_two_bands (λ _, 7200000%Z)).
  - intros _. unfold JsDate.msPerDay. lia.
  - lia.
Defined.

(** ** The session *)

Lemma session_inv_start (data : list Conversation) (db : Stores) :
  session_inv data (session_start db).
Proof. split; [constructor|]. split; [apply sublist_nil_l | done]. Qed.

Lemma filter_elem {A} (f : A → bool) (l : list A) (x : A) :
  x ∈ List.filter f l ↔ x ∈ l ∧ f x = true.
Proof. rewrite !list_elem_of_In. apply filter_In. Qed.

Lemma step_session_inv (data : list Conversation) (s s' : Session) :
  step data s s' → session_inv data s → session_inv data s'.
Proof.
  intros Hstep (Hfilt & Hdata & Hsel).
  destruct Hstep as [s | s | s fuel result Heff | s term | s name checked
                    | s fuel c history Hc Hhist | s id | s | s id title
                    | s ok | s]; unfold session_inv; cbn.
  - split; [done|]. split; [done|].
    destruct (selectedConversation (app s)) as [c|]; [|done].
    destruct Hsel as [Hc Hhist]. split; [|done]. by eapply elem_of_sublist.
  - unfold loadCleanedIds. by destruct (cleanedIdsItem (stores s)).
  - split; [by apply filter_effect_again in Heff as [? _]|]. done.
  - done.
  - done.
  - split; [done|]. split; [done|]. split; [by eapply elem_of_sublist|].
    by exists fuel.
  - done.
  - done.
  - done.
  - unfold confirmDelete.
    destruct (deleteConfirmation (app s)) as [[id title]|]; [|done].
    destruct ok; [|done]. cbn.
    split; [apply filter_sublist|].
    split; [etrans; [apply filter_sublist | done]|].
    destruct (selectedConversation (app s)) as [c|]; [|done].
    destruct Hsel as [Hc Hhist].
    destruct (String.eqb (conv_id c) id) eqn:Hid; [done|].
    split; [|done]. apply filter_elem. by rewrite Hid.
  - done.
Qed.

Lemma reachable_session_inv (data : list Conversation) (db : Stores) (s : Session) :
  rtc (step data) (session_start db) s → session_inv data s.
Proof.
  revert s. apply rtc_ind_r; [apply session_inv_start|].
  intros s s' _ Hstep Hinv. by eapply step_session_inv.
Qed.

Lemma step_cleaned_inv (data : list Conversation) (s s' : Session) :
  step data s s' → cleaned_inv s → cleaned_inv s'.
Proof.
  intros Hstep Hinv.
  destruct Hstep as [s | s | s fuel result Heff | s term | s name checked
                    | s fuel c history Hc Hhist | s id | s | s id title
                    | s ok | s]; unfold cleaned_inv in *; cbn; try done.
  - unfold loadCleanedIds.
    by destruct (cleanedIdsItem (stores s)) as [ids|].
  - unfold confirmDelete.
    destruct (deleteConfirmation (app s)) as [[id title]|]; [|done].
    by destruct ok.
Qed.

Lemma reachable_cleaned_inv (data : list Conversation) (db : Stores) (s : Session) :
  rtc (step data) (session_start db) s → cleaned_inv s.
Proof.
  revert s. apply rtc_ind_r; [by intros H|].
  intros s s' _ Hstep Hinv. by eapply step_cleaned_inv.
Qed.

(** X12. All along a session, whatever the user does and whenever the
    effects run: the listed conversations are part of all the
    conversations, in their order, and these are part of the fetched
    archive; a selected conversation is one of the conversations still
    there, and the history on show is the reconstruction of its thread;
    with nothing selected the history is empty. *)
Theorem session_keeps_lists_and_selection (data : list Conversation)
    (db : Stores) (s : Session) :
  rtc (step data) (session_start db) s →
  sublist (filteredConversations (app s)) (conversations (app s)) ∧
  sublist (conversations (app s)) data ∧
  match selectedConversation (app s) with
  | Some c =>
      c ∈ conversations (app s) ∧
      ∃ fuel, handleSelectConversation fuel c = Ret (chatHistory (app s))
  | None => chatHistory (app s) = []
  end.
Proof. apply reachable_session_inv. Qed.

Lemma session_keeps_lists_and_selection_witness :
  session_inv Sample.archive
    {| app := select Sample.talk [Sample.question; Sample.answer]
                (fetchConversations Sample.archive initial_state);
       gpts := initial_gpts;
       stores := Sample.fresh_stores |}.
Proof.
  apply (session_keeps_lists_and_selection Sample.archive Sample.fresh_stores).
  pose (fetched := {| app := fetchConversations Sample.archive initial_state;
                      gpts := initial_gpts;
                      stores := Sample.fresh_stores |}).
  apply (rtc_l _ _ fetched).
  - exact (step_fetched Sample.archive (session_start Sample.fresh_stores)).
  - eapply rtc_l; [|apply rtc_refl].
    exact (step_select Sample.archive fetched 4 Sample.talk
             [Sample.question; Sample.answer]
             (list_elem_of_here _ _) eq_refl).
Defined.

(** X13. The ids marked as cleaned outlive the session: all along a
    session, once the list in memory holds an id, the stored list is that
    very list, so that the next load brings back exactly the list as it
    stands (an id twice when it was saved twice, and a deleted
    conversation's id too). *)
Theorem cleaned_ids_survive_reload (data data' : list Conversation)
    (db : Stores) (s : Session) :
  rtc (step data) (session_start db) s →
  cleanedConversationIds (app s) ≠ [] →
  cleanedConversationIds (load data' (stores s))
  = cleanedConversationIds (app s).
Proof.
  intros Hreach Hne.
  pose proof (reachable_cleaned_inv data db s Hreach Hne) as Hstored.
  unfold load, loadCleanedIds. by rewrite Hstored.
Qed.

Lemma cleaned_ids_survive_reload_witness :
  cleanedConversationIds
    (load Sample.archive
       (snd (saveConversation "c1" initial_state Sample.fresh_stores)))
  = ["c1"].
Proof.
  apply (cleaned_ids_survive_reload Sample.archive Sample.archive
           Sample.fresh_stores
           {| app := fst (saveConversation "c1" initial_state Sample.fresh_stores);
              gpts := initial_gpts;
              stores := snd (saveConversation "c1" initial_state Sample.fresh_stores) |}).
  - eapply rtc_l; [|apply rtc_refl].
    apply (step_save Sample.archive (session_start Sample.fresh_stores) "c1").
  - discriminate.
Defined.

(** ** Deleting a conversation *)




(** ** The check boxes *)

Lemma elem_of_selectedGpts (gpts : list (string * bool)) (n : string) :
  n ∈ selectedGpts gpts ↔ (n, true) ∈ gpts.
Proof.
  unfold selectedGpts. rewrite list_elem_of_In, in_map_iff. split.
  - intros ([k v] & <- & Hin). apply filter_In in Hin as [Hin Hv].
    cbn in Hv. subst v. by apply list_elem_of_In.
  - intros Hin. exists (n, true). split; [done|].
    apply filter_In. split; [by apply list_elem_of_In | done].
Qed.

Lemma set_entry_lookup (name : string) (checked : bool)
    (gpts : list (string * bool)) :
  NoDup (List.map fst gpts) →
  ∀ n v, (n, v) ∈ set_entry name checked gpts
         ↔ (n = name ∧ v = checked) ∨ (n ≠ name ∧ (n, v) ∈ gpts).
Proof.
  induction gpts as [|[k w] gpts IH]; intros Hnodup n v; cbn [set_entry].
  - rewrite list_elem_of_singleton, elem_of_nil. naive_solver.
  - cbn in Hnodup. apply NoDup_cons in Hnodup as [Hk Hnodup].
    assert (∀ u, (k, u) ∉ gpts) as Hfresh.
    { intros u Hu. apply Hk. apply list_elem_of_In, in_map_iff.
      exists (k, u). split; [done | by apply list_elem_of_In]. }
    destruct (String.eqb_spec k name) as [-> | Hne].
    + rewrite !elem_of_cons. split.
      * intros [[= -> ->] | Hin]; [by left|].
        right. split; [|by right]. intros ->. by eapply Hfresh.
      * intros [[-> ->] | [Hn [[= -> ->] | Hin]]]; [by left | done | by right].
    + rewrite !elem_of_cons, (IH Hnodup). naive_solver.
Qed.

Lemma set_entry_keys (name : string) (checked : bool)
    (gpts : list (string * bool)) :
  name ∈ List.map fst gpts →
  List.map fst (set_entry name checked gpts) = List.map fst gpts.
Proof.
  induction gpts as [|[k w] gpts IH]; intros Hin; cbn [set_entry].
  - by apply elem_of_nil in Hin.
  - destruct (String.eqb_spec k name) as [-> | Hne]; [done|].
    cbn. f_equal. apply IH.
    cbn in Hin. apply elem_of_cons in Hin as [-> | Hin]; done.
Qed.

(** X15. Ticking or unticking a check box changes that name and no
    other: afterwards a name is among the selected ones exactly when it is
    the box's name and the box is ticked, or it is another name that was
    selected before; the boxes keep their order. *)
Theorem handleGptChange_one_box (name : string) (checked : bool)
    (gpts : list (string * bool)) :
  NoDup (List.map fst gpts) →
  name ∈ List.map fst gpts →
  (∀ n, n ∈ selectedGpts (handleGptChange name checked gpts)
        ↔ (n = name ∧ checked = true) ∨ (n ≠ name ∧ n ∈ selectedGpts gpts)) ∧
  List.map fst (handleGptChange name checked gpts) = List.map fst gpts.
Proof.
  intros Hnodup Hname. unfold handleGptChange. split.
  - intros n. rewrite !elem_of_selectedGpts, (set_entry_lookup _ _ _ Hnodup).
    naive_solver.
  - by apply set_entry_keys.
Qed.

Lemma handleGptChange_one_box_witness :
  selectedGpts (handleGptChange "Osho" false initial_gpts) = ["Lester"; "Neville"]
  ∧ List.map fst (handleGptChange "Osho" false initial_gpts)
    = ["Lester"; "Osho"; "Neville"].
Proof.
  split; [reflexivity|].
  apply (handleGptChange_one_box "Osho" false initial_gpts).
  - cbn. repeat constructor; set_solver.
  - cbn. set_solver.
Defined.

(** ** Timestamps out of the range of [Date] *)

(** X16. A timestamp whose time value falls outside the range of a
    [Date] (below -8.64e12 as a count of seconds, or from 8.64e18 + 1000
    on as a count of microseconds) has no year to compare, and only for
    such a timestamp is the rendering of an invalid [Date] handed out
    instead of the fixed text or a date; this holds in every time zone. *)
Theorem formatDate_out_of_range (LocalTZA : Z → Z) (timestamp : Z) :
  formatDate LocalTZA timestamp = LocaleDateString None
  ↔ (timestamp < -8640000000000 ∨ 8640000000000000999 < timestamp)%Z.
Proof.
  unfold formatDate, JsDate.new_Date, JsDate.TimeClip, timestampInMs.
  destruct (Z.ltb_spec timestamp 10000000000).
  - destruct (Z.ltb_spec 8640000000000000 (Z.abs (timestamp * 1000))).
    + cbn. split; [lia | done].
    + cbn [JsDate.getFullYear JsDate.num_lt JsDate.num_gt].
      split; [by destruct (_ || _) | lia].
  - destruct (Z.ltb_spec 1000000000000 timestamp).
    + rewrite Z.quot_div_nonneg by lia.
      destruct (Z.ltb_spec 8640000000000000 (Z.abs (timestamp / 1000)))
        as [Hbig|Hsmall].
      * cbn. split; [|done]. intros _. right.
        revert Hbig. Z.div_mod_to_equations. lia.
      * cbn [JsDate.getFullYear JsDate.num_lt JsDate.num_gt].
        split; [by destruct (_ || _)|].
        intros Hout. exfalso. revert Hsmall. Z.div_mod_to_equations. lia.
    + destruct (Z.ltb_spec 8640000000000000 (Z.abs timestamp)); [lia|].
      cbn [JsDate.getFullYear JsDate.num_lt JsDate.num_gt].
      split; [by destruct (_ || _) | lia].
Qed.

(** ** The summarizer's choice of conversations and the classifier *)

Lemma known_names_lower (name : string) :
  name ∈ known_names →
  toLowerCase name = "lester" ∨ toLowerCase name = "osho"
  ∨ toLowerCase name = "neville".
Proof.
  unfold known_names. intros H.
  repeat (apply elem_of_cons in H as [-> | H]; [by auto|]).
  by apply elem_of_nil in H.
Qed.

(** X17. A conversation that the summarizer takes for a typed name (its
    title holds the name, whatever the case) is one that the classifier
    names from the title alone, at once and whatever its messages are;
    for Lester the two agree, for the other two names the classifier may
    answer a name that comes earlier in its order. *)
Theorem summarizer_choice_is_classified (c : Conversation) (g name : string) :
  name ∈ known_names → same_ci g name →
  includes (toLowerCase (title c)) (toLowerCase g) = true →
  (∃ a, a ∈ known_names ∧
        ∀ fuel, getAssistantFromConversation fuel c = Ret (Some a)) ∧
  (name = "Lester" →
     ∀ fuel, getAssistantFromConversation fuel c = Ret (Some "Lester")).
Proof.
  unfold same_ci. intros Hname Hg Hin. rewrite Hg in Hin.
  assert (∃ a, known_name (toLowerCase (title c)) = Some a) as [a Ha].
  { unfold known_name.
    destruct (known_names_lower name Hname) as [Hl | [Hl | Hl]];
      rewrite Hl in Hin.
    - rewrite Hin. by eexists.
    - destruct (includes _ "lester"); [by eexists|]. rewrite Hin. by eexists.
    - destruct (includes _ "lester"); [by eexists|].
      destruct (includes _ "osho"); [by eexists|]. rewrite Hin. by eexists. }
  split.
  - exists a. split; [by eapply known_name_known|].
    intros fuel. unfold getAssistantFromConversation. by rewrite Ha.
  - intros -> fuel. change (toLowerCase "Lester") with "lester" in Hin.
    unfold getAssistantFromConversation, known_name. by rewrite Hin.
Qed.

Lemma summarizer_choice_is_classified_witness :
  getAssistantFromConversation 0 More.lester_talk = Ret (Some "Lester").
Proof.
  destruct (summarizer_choice_is_classified More.lester_talk "lester" "Lester")
    as [_ Hlester].
  - unfold known_names. set_solver.
  - reflexivity.
  - reflexivity.
  - by apply Hlester.
Defined.
